(** * Image I/O and auto-exposure of the denoiser examples

    A shallow embedding of [examples/image_io.cpp] (PFM decoder and
    encoder, PPM encoder, extension dispatch) and of [autoexposure]
    (log-average luminance), with the properties the specification
    states about them.

    Conventions.
    - [float] is IEEE-754 binary32, modelled by [spec_float] at
      precision 24 and maximal exponent 128. All NaNs are one value;
      every operation rounds to nearest even and none is fused.
    - [int] is a 32-bit two's complement integer held in [Z]; arithmetic
      on it wraps ([Int.wrap]). The statements that depend on index or
      counter arithmetic assume the values fit.
    - A file is a list of bytes ([ascii]); an input stream carries the
      unread bytes together with its [eofbit] and [failbit]. Floats are
      stored little-endian. Writing to an open file does not fail.
    - A C++ exception is the [Throw] outcome; an operation the language
      leaves undefined (conversion of an unrepresentable float to
      [int]) is the [Undefined] outcome.
    - The libraries the sources call are modelled by what they specify:
      stream extraction as in the standard library, [pow] by the special
      values of C Annex F with the ordinary values left to a parameter,
      [log2] and [exp2] as parameters, [tbb::parallel_reduce] by the
      schedules it may follow (splits of the row range, with a fresh
      body or with the same body going on), the EXR codec as a
      parameter. *)

From Stdlib Require Import ZArith Lia Bool Ascii String SpecFloat.
From stdpp Require Import list.

Local Open Scope Z_scope.

(** ** 32-bit signed integers *)

Module Int.

Definition min_signed : Z := - 2 ^ 31.
Definition max_signed : Z := 2 ^ 31 - 1.

Definition in_range (z : Z) : Prop := min_signed <= z <= max_signed.

Definition in_rangeb (z : Z) : bool := (min_signed <=? z) && (z <=? max_signed).

(** Two's complement wrap-around of a mathematical integer. *)
Definition wrap (z : Z) : Z := (z + 2 ^ 31) mod 2 ^ 32 - 2 ^ 31.

Definition add (a b : Z) : Z := wrap (a + b).
Definition sub (a b : Z) : Z := wrap (a - b).
Definition mul (a b : Z) : Z := wrap (a * b).

End Int.

(** ** Single-precision floats *)

Module F32.

Definition prec : Z := 24.
Definition emax : Z := 128.

Definition float32 : Type := spec_float.

Definition valid (x : float32) : Prop := valid_binary prec emax x = true.

Definition add : float32 -> float32 -> float32 := SFadd prec emax.
Definition mul : float32 -> float32 -> float32 := SFmul prec emax.
Definition div : float32 -> float32 -> float32 := SFdiv prec emax.
Definition abs : float32 -> float32 := SFabs.
Definition ltb : float32 -> float32 -> bool := SFltb.
Definition leb : float32 -> float32 -> bool := SFleb.

Definition pzero : float32 := S754_zero false.
Definition pinf : float32 := S754_infinity false.
Definition nan : float32 := S754_nan.

(** [float(n)] for an integer [n]: round to nearest, ties to even. *)
Definition of_Z (n : Z) : float32 := binary_normalize prec emax n 0 false.

(** The float nearest to [(-1)^neg * m * 10^k]: the value of a decimal
    literal or of a decimal token read from a stream. *)
Definition of_decimal (neg : bool) (m : Z) (k : Z) : float32 :=
  match m with
  | Zpos _ =>
      if 0 <=? k then binary_normalize prec emax (if neg then - (m * 10 ^ k) else m * 10 ^ k) 0 neg
      else
        let '(q, e, l) := SFdiv_core_binary prec emax m 0 (10 ^ (- k)) 0 in
        binary_round_aux prec emax neg q e l
  | _ => S754_zero neg
  end.

(** [int(x)]: truncation toward zero; the conversion is undefined
    ([None]) when the truncated value does not fit an [int], which
    includes infinities and NaN. *)
Definition to_int (x : float32) : option Z :=
  match x with
  | S754_zero _ => Some 0
  | S754_finite s m e =>
      let a := if 0 <=? e then Zpos m * 2 ^ e else Zpos m / 2 ^ (- e) in
      let v := if s then - a else a in
      if Int.in_rangeb v then Some v else None
  | _ => None
  end.

(** The IEEE-754 binary32 interchange encoding, as a number below
    [2^32]: sign in bit 31, biased exponent in bits 30..23, fraction
    in bits 22..0. *)
Definition sign_bit (s : bool) : Z := if s then 2 ^ 31 else 0.

Definition bits_of (x : float32) : Z :=
  match x with
  | S754_zero s => sign_bit s
  | S754_infinity s => sign_bit s + 255 * 2 ^ 23
  | S754_nan => 255 * 2 ^ 23 + 2 ^ 22
  | S754_finite s m e =>
      if 2 ^ 23 <=? Zpos m
      then sign_bit s + (e + 150) * 2 ^ 23 + (Zpos m - 2 ^ 23)
      else sign_bit s + Zpos m
  end.

Definition of_bits (b : Z) : float32 :=
  let s := 2 ^ 31 <=? b in
  let ex := (b / 2 ^ 23) mod 256 in
  let fr := b mod 2 ^ 23 in
  if ex =? 0 then
    if fr =? 0 then S754_zero s else S754_finite s (Z.to_pos fr) (-149)
  else if ex =? 255 then
    if fr =? 0 then S754_infinity s else S754_nan
  else S754_finite s (Z.to_pos (fr + 2 ^ 23)) (ex - 150).

(** Object representation on a little-endian machine. *)
Definition byte_at (b : Z) (i : Z) : ascii :=
  ascii_of_N (Z.to_N ((b / 2 ^ (8 * i)) mod 256)).

Definition to_bytes (x : float32) : list ascii :=
  let b := bits_of x in [byte_at b 0; byte_at b 1; byte_at b 2; byte_at b 3].

Definition byte_val (a : ascii) : Z := Z.of_N (N_of_ascii a).

Definition of_bytes (bs : list ascii) : float32 :=
  of_bits (fold_right (fun a acc => byte_val a + 256 * acc) 0 bs).

End F32.

Abbreviation float32 := F32.float32.

(** ** Outcomes of a call *)

Inductive exn : Type :=
  | runtime_error (what : string)
  | invalid_argument (what : string)
  | out_of_range (what : string).

Inductive outcome (A : Type) : Type :=
  | Ok (a : A)
  | Throw (e : exn)
  | Undefined.

Arguments Ok {A} a.
Arguments Throw {A} e.
Arguments Undefined {A}.

(** ** Characters and decimal text *)

Definition code (c : ascii) : Z := Z.of_N (N_of_ascii c).

Definition char_of (n : Z) : ascii := ascii_of_N (Z.to_N n).

Definition newline : ascii := char_of 10.

(** [isspace] in the classic locale. *)
Definition isspace (c : ascii) : bool :=
  (code c =? 32) || ((9 <=? code c) && (code c <=? 13)).

Definition isdigit (c : ascii) : bool := (48 <=? code c) && (code c <=? 57).

Definition digit_char (d : Z) : ascii := char_of (48 + d).

Definition text (s : string) : list ascii := list_ascii_of_string s.

(** Value of a run of decimal digits, most significant first. *)
Definition digits_value (ds : list ascii) : Z :=
  fold_left (fun acc c => 10 * acc + (code c - 48)) ds 0.

(** Longest prefix satisfying [p], and the rest. *)
Fixpoint span (p : ascii -> bool) (l : list ascii) : list ascii * list ascii :=
  match l with
  | c :: l' => if p c then let '(a, b) := span p l' in (c :: a, b) else ([], l)
  | [] => ([], [])
  end.

(** Decimal digits of a non-negative number; [fuel] bounds the number
    of digits and is taken to be the number itself. *)
Fixpoint print_digits (fuel : positive) (n : Z) (acc : list ascii) : list ascii :=
  let acc' := digit_char (n mod 10) :: acc in
  if n <? 10 then acc'
  else match fuel with
       | xH => acc'
       | xO f | xI f => print_digits f (n / 10) acc'
       end.

(** [operator<<(int)]: decimal, with a minus sign when negative. *)
Definition print_int (n : Z) : list ascii :=
  match n with
  | Z0 => [digit_char 0]
  | Zpos p => print_digits p n []
  | Zneg p => char_of 45 :: print_digits p (- n) []
  end.

(** ** Input streams *)

Record istream : Type := { buf : list ascii; eofbit : bool; failbit : bool }.

Definition good (s : istream) : bool := negb (eofbit s) && negb (failbit s).

Definition setfail (s : istream) : istream :=
  {| buf := buf s; eofbit := eofbit s; failbit := true |}.

Definition at_end (l : list ascii) : bool :=
  match l with [] => true | _ => false end.

(** The sentry of a formatted extraction: a stream that is not good
    fails; otherwise leading white space is skipped, and reaching the
    end while skipping sets [eofbit] and [failbit]. *)
Definition sentry (s : istream) : istream * bool :=
  if good s then
    match snd (span isspace (buf s)) with
    | [] => ({| buf := []; eofbit := true; failbit := true |}, false)
    | l => ({| buf := l; eofbit := false; failbit := false |}, true)
    end
  else (setfail s, false).

(** [file >> str]: the characters up to the next white space. *)
Definition extract_string (s : istream) : string * istream :=
  let '(s1, ok) := sentry s in
  if ok then
    let '(tok, rest) := span (fun c => negb (isspace c)) (buf s1) in
    (string_of_list_ascii tok,
     {| buf := rest; eofbit := at_end rest; failbit := at_end tok |})
  else (EmptyString, s1).

Definition read_sign (l : list ascii) : bool * list ascii :=
  match l with
  | c :: l' => if code c =? 45 then (true, l')
               else if code c =? 43 then (false, l') else (false, l)
  | [] => (false, [])
  end.

(** [file >> n] for an [int]: optional sign and decimal digits. No
    digit, or a value outside [int], sets [failbit]; the value stored
    is then 0, or the nearest bound. A stream that already failed
    leaves the variable untouched (0 stands for that). *)
Definition extract_int (s : istream) : Z * istream :=
  let '(s1, ok) := sentry s in
  if ok then
    let '(neg, l1) := read_sign (buf s1) in
    let '(ds, rest) := span isdigit l1 in
    let v := if neg then - digits_value ds else digits_value ds in
    let bad := at_end ds || negb (Int.in_rangeb v) in
    (if at_end ds then 0
     else if Int.max_signed <? v then Int.max_signed
     else if v <? Int.min_signed then Int.min_signed else v,
     {| buf := rest; eofbit := at_end rest; failbit := bad |})
  else (0, s1).

Definition max_float : float32 := S754_finite false (2 ^ 24 - 1) 104.

Definition is_exp_char (c : ascii) : bool := (code c =? 101) || (code c =? 69).

(** [file >> x] for a [float]: sign, digits, optional fraction,
    optional exponent, converted with correct rounding. A token with
    no mantissa digit or with an empty exponent sets [failbit] and
    stores 0; a value too large for a [float] sets [failbit] and
    stores the largest finite float of that sign. *)
Definition extract_float (s : istream) : float32 * istream :=
  let '(s1, ok) := sentry s in
  if ok then
    let '(neg, l1) := read_sign (buf s1) in
    let '(ip, l2) := span isdigit l1 in
    let '(fp, l3) :=
      match l2 with
      | c :: l' => if code c =? 46 then span isdigit l' else ([], l2)
      | [] => ([], l2)
      end in
    let '(has_exp, eneg, ep, rest) :=
      match l3 with
      | c :: l' =>
          if is_exp_char c && negb (at_end (ip ++ fp))
          then let '(sg, l4) := read_sign l' in
               let '(ds, l5) := span isdigit l4 in (true, sg, ds, l5)
          else (false, false, [], l3)
      | [] => (false, false, [], l3)
      end in
    let ex := if eneg then - digits_value ep else digits_value ep in
    let v := F32.of_decimal neg (digits_value (ip ++ fp)) (ex - Z.of_nat (length fp)) in
    let malformed := at_end (ip ++ fp) || (has_exp && at_end ep) in
    let overflow := match v with S754_infinity _ => true | _ => false end in
    (if malformed then F32.pzero
     else if overflow then (if neg then SFopp max_float else max_float) else v,
     {| buf := rest; eofbit := at_end rest; failbit := malformed || overflow |})
  else (F32.pzero, s1).

(** [file.get()]: one byte is consumed. No white space is skipped; a
    stream that is not good, or has no byte left, fails. *)
Definition get (s : istream) : istream :=
  if good s then
    match buf s with
    | _ :: l => {| buf := l; eofbit := false; failbit := false |}
    | [] => {| buf := []; eofbit := true; failbit := true |}
    end
  else setfail s.

(** [file.read(p, n)]: the bytes stored, and the stream; fewer than [n]
    available bytes set [eofbit] and [failbit]. *)
Definition read (n : nat) (s : istream) : list ascii * istream :=
  if good s then
    if (n <=? length (buf s))%nat
    then (take n (buf s), {| buf := drop n (buf s); eofbit := false; failbit := false |})
    else (buf s, {| buf := []; eofbit := true; failbit := true |})
  else ([], setfail s).

(** [float x; file.read((char* )&x, sizeof(float))]. After a short read
    [x] is indeterminate; [0] stands for that value. *)
Definition read_float (s : istream) : float32 * istream :=
  let '(bs, s') := read 4 s in
  (if failbit s' then F32.pzero else F32.of_bytes bs, s').

(** ** Counted loops *)

(** [for (int i = lo; i < hi; ++i) body], threading the state [s]. *)
Definition for_range {St : Type} (lo hi : Z) (body : Z -> St -> St) (s : St) : St :=
  fold_left (fun s i => body (lo + Z.of_nat i) s) (seq 0 (Z.to_nat (hi - lo))) s.

(** ** Tensors *)

(** Modelled from the spec: the tensor container ([common/tensor.h] is
    not part of the sources): a shape, an axis-order tag and a flat
    row-major buffer of [dims[0]*dims[1]*...] floats. *)
Record Tensor : Type := { dims : list Z; format : string; data : list float32 }.

Definition ndims (t : Tensor) : Z := Z.of_nat (length (dims t)).

Definition dim (t : Tensor) (i : nat) : Z := nth i (dims t) 0.

Definition num_elements (ds : list Z) : Z := fold_right Z.mul 1 ds.

(** A freshly constructed tensor; its contents stand for the
    uninitialised buffer. The model covers shapes with non-negative
    dimensions: what the constructor does with a negative element count
    is not modelled (the buffer is then empty here), and no statement
    below is about such a shape. *)
Definition Tensor_new (ds : list Z) (fmt : string) : Tensor :=
  {| dims := ds; format := fmt;
     data := replicate (Z.to_nat (num_elements ds)) F32.pzero |}.

(** [image[i]] as an rvalue and as the target of an assignment. An
    access outside the buffer is undefined in the source; here it reads
    0 and writes nothing. The programs below stay inside the buffer
    whenever the dimensions are not negative and the element count
    fits an [int], and every statement about their pixel loops assumes
    that range. *)
Definition tensor_get (t : Tensor) (i : Z) : float32 :=
  if 0 <=? i then nth (Z.to_nat i) (data t) F32.pzero else F32.pzero.

Definition tensor_set (t : Tensor) (i : Z) (x : float32) : Tensor :=
  if 0 <=? i
  then {| dims := dims t; format := format t; data := <[Z.to_nat i := x]> (data t) |}
  else t.

(** The test every encoder starts with:
    [image.ndims() != 3 || image.dims[2] != 3 || image.format != "hwc"]. *)
Definition not_hwc3 (image : Tensor) : bool :=
  negb (ndims image =? 3) || negb (dim image 2 =? 3)
  || negb (String.eqb (format image) "hwc").

(** [((H-1-h)*W + w) * C + c] in [int] arithmetic. *)
Definition flipped_index (H W C h w c : Z) : Z :=
  Int.add (Int.mul (Int.add (Int.mul (Int.sub (Int.sub H 1) h) W) w) C) c.

(** ** Files *)

Record disk : Type := {
  file_at : string -> option (list ascii);
  can_write : string -> bool
}.

Definition write_file (d : disk) (filename : string) (bytes : list ascii) : disk :=
  {| file_at := fun f => if String.eqb f filename then Some bytes else file_at d f;
     can_write := can_write d |}.

Definition ifstream_open (d : disk) (filename : string) : option istream :=
  match file_at d filename with
  | Some bytes => Some {| buf := bytes; eofbit := false; failbit := false |}
  | None => None
  end.

(** ** The PFM decoder *)

Record pfm_header : Type := { hC : Z; hW : Z; hH : Z; hscale : float32 }.

(** The header part of [loadImagePFM]: magic, width, height, scale and
    the byte after the scale, up to the first test of [file.fail()]. *)
Definition read_pfm_header (file : istream) : outcome (pfm_header * istream) :=
  let '(id, file) := extract_string file in
  match (if String.eqb id "PF" then Some 3
         else if String.eqb id "Pf" then Some 1 else None) with
  | None => Throw (runtime_error "invalid PFM image")
  | Some C =>
      let '(W, file) := extract_int file in
      let '(H, file) := extract_int file in
      let '(scale, file) := extract_float file in
      let file := get file in
      if failbit file then Throw (runtime_error "invalid PFM image")
      else Ok ({| hC := C; hW := W; hH := H; hscale := scale |}, file)
  end.

(** The pixel loops of [loadImagePFM]. *)
Definition read_pixels (H W C : Z) (scale : float32)
    (st : istream * Tensor) : istream * Tensor :=
  for_range 0 H (fun h =>
    for_range 0 W (fun w =>
      for_range 0 C (fun c '(file, image) =>
        let '(x, file) := read_float file in
        (file, tensor_set image (flipped_index H W C h w c) (F32.mul x scale))))) st.

Definition loadImagePFM (filename : string) (d : disk) : outcome Tensor :=
  match ifstream_open d filename with
  | None => Throw (runtime_error ("cannot open file '" ++ filename ++ "'"))
  | Some file =>
      match read_pfm_header file with
      | Ok (hd, file) =>
          if F32.leb F32.pzero (hscale hd)
          then Throw (runtime_error "big-endian PFM images are not supported")
          else
            let scale := F32.abs (hscale hd) in
            let image := Tensor_new [hH hd; hW hd; hC hd] "hwc" in
            let '(file, image) := read_pixels (hH hd) (hW hd) (hC hd) scale (file, image) in
            if failbit file then Throw (runtime_error "invalid PFM image")
            else Ok image
      | Throw e => Throw e
      | Undefined => Undefined
      end
  end.

(** ** The PFM encoder *)

Definition pfm_body (image : Tensor) (H W C : Z) (file : list ascii) : list ascii :=
  for_range 0 H (fun h =>
    for_range 0 W (fun w =>
      for_range 0 3 (fun c file =>
        let x := tensor_get image (flipped_index H W C h w c) in
        file ++ F32.to_bytes x))) file.

Definition saveImagePFM (image : Tensor) (filename : string) (d : disk) : outcome disk :=
  if not_hwc3 image then Throw (invalid_argument "image must have 3 channels")
  else
    let H := dim image 0 in
    let W := dim image 1 in
    let C := dim image 2 in
    if negb (can_write d filename)
    then Throw (runtime_error ("cannot open file: '" ++ filename ++ "'"))
    else
      let file := text "PF" ++ [newline] in
      let file := file ++ print_int W ++ text " " ++ print_int H ++ [newline] in
      let file := file ++ text "-1.0" ++ [newline] in
      Ok (write_file d filename (pfm_body image H W C file)).

(** ** Image views and parallel reduction *)

(** Modelled from the spec: the 2D float-RGB view ([autoexposure.h] and
    the declaration of [Data2D] are not part of the sources): a grid of
    [height] by [width] pixels, [get h w] being the three channel
    values of a pixel. *)
Module Data2D.
Record t : Type := { height : Z; width : Z; get : Z -> Z -> float32 * float32 * float32 }.
End Data2D.

(** How [tbb::parallel_reduce] takes a body object, which holds a
    value, over a range [lo, hi). The body runs the functor on the
    whole range from the value it holds ([Run]). Or the range is cut at
    [mid] and the right part is taken while the left part is still in
    progress: it gets a fresh body that starts from the identity, and
    the left body joins it when both are done ([Split]). Or the range
    is cut at [mid] and the right part starts after the left part is
    done, joins included: the same body goes on from the value it has
    reached ([Continue]). *)
Inductive schedule : Type :=
  | Run
  | Split (mid : Z) (left right : schedule)
  | Continue (mid : Z) (left right : schedule).

(** The value a body that holds [value] reaches over [lo, hi). *)
Fixpoint reduce_from {V : Type} (s : schedule) (lo hi : Z) (value identity : V)
    (body : Z -> Z -> V -> V) (join : V -> V -> V) : V :=
  match s with
  | Run => body lo hi value
  | Split mid l r =>
      join (reduce_from l lo mid value identity body join)
           (reduce_from r mid hi identity identity body join)
  | Continue mid l r =>
      reduce_from r mid hi (reduce_from l lo mid value identity body join)
        identity body join
  end.

Definition parallel_reduce {V : Type} (s : schedule) (lo hi : Z) (identity : V)
    (body : Z -> Z -> V -> V) (join : V -> V -> V) : V :=
  reduce_from s lo hi identity identity body join.

(** The split points of a schedule lie inside the range. *)
Fixpoint schedule_fits (s : schedule) (lo hi : Z) : Prop :=
  match s with
  | Run => True
  | Split mid l r | Continue mid l r =>
      lo <= mid <= hi /\ schedule_fits l lo mid /\ schedule_fits r mid hi
  end.

(** ** Positions in a PFM body *)

(** Position of sample [(h, w, c)] in a row-major [H x W x C] array. *)
Definition linear_index (W C h w c : Z) : Z := (h * W + w) * C + c.

(** The [k]-th float stored in a body. *)
Definition stored_sample (body : list ascii) (k : Z) : float32 :=
  F32.of_bytes (take 4 (drop (Z.to_nat (4 * k)) body)).

(** ** What "the header parses" means *)

Definition stream_of (bytes : list ascii) : istream :=
  {| buf := bytes; eofbit := false; failbit := false |}.

(** The four header tokens (magic, width, height, scale) are extracted
    without failure; nothing is said about what follows the scale. *)
Definition pfm_tokens (file : istream) : option pfm_header :=
  let '(id, file) := extract_string file in
  match (if String.eqb id "PF" then Some 3
         else if String.eqb id "Pf" then Some 1 else None) with
  | None => None
  | Some C =>
      let '(W, file) := extract_int file in
      let '(H, file) := extract_int file in
      let '(scale, file) := extract_float file in
      if failbit file then None
      else Some {| hC := C; hW := W; hH := H; hscale := scale |}
  end.

(** ** Sample inputs *)

Definition empty_disk : disk :=
  {| file_at := fun _ => None; can_write := fun _ => true |}.

Definition disk_with (filename : string) (bytes : list ascii) : disk :=
  write_file empty_disk filename bytes.

(** A 1x1 image holding one black pixel. *)
Definition black_pixel : Tensor :=
  {| dims := [1; 1; 3]; format := "hwc";
     data := [F32.pzero; F32.pzero; F32.pzero] |}.

Definition lf : string := String newline EmptyString.

(** A 1x1 image whose red sample is [+infinity]. *)
Definition overexposed_pixel : Tensor :=
  {| dims := [1; 1; 3]; format := "hwc";
     data := [F32.pinf; F32.pzero; F32.pzero] |}.

(** A 2x1 image holding the samples 1, 2, ..., 6. *)
Definition two_rows : Tensor :=
  {| dims := [2; 1; 3]; format := "hwc";
     data := map F32.of_Z [1; 2; 3; 4; 5; 6] |}.

(** A PFM file of width 1 and height 2 with scale -2.0. *)
Definition two_rows_body : list ascii := text "abcdefghijklmnopqrstuvwx".

Definition two_rows_file : list ascii :=
  text ("PF" ++ lf ++ "1 2" ++ lf ++ "-2.0" ++ lf) ++ two_rows_body.

Definition two_rows_header : pfm_header :=
  {| hC := 3; hW := 1; hH := 2; hscale := F32.of_Z (-2) |}.

(** A 2x2 view that is black everywhere, and one whose top-left pixel
    is white. *)
Definition dark_view : Data2D.t :=
  {| Data2D.height := 2; Data2D.width := 2;
     Data2D.get := fun _ _ => (F32.pzero, F32.pzero, F32.pzero) |}.

Definition lit_view : Data2D.t :=
  {| Data2D.height := 2; Data2D.width := 2;
     Data2D.get := fun h w =>
       if (h =? 0) && (w =? 0)
       then (F32.of_Z 1, F32.of_Z 1, F32.of_Z 1)
       else (F32.pzero, F32.pzero, F32.pzero) |}.

(** The rows [0, 2) cut in two chunks of one row. *)
Definition two_chunks : schedule := Split 1 Run Run.

(** The rows [0, 3): two chunks of one row joined, after which the same
    body goes on with the third row. *)
Definition resumed_chunks : schedule := Continue 2 (Split 1 Run Run) Run.

(** A 3x2 view of grey pixels of the levels 3, 0, 5, 9, 0 and 17. *)
Definition graded_view : Data2D.t :=
  {| Data2D.height := 3; Data2D.width := 2;
     Data2D.get := fun h w =>
       let level := nth (Z.to_nat (2 * h + w)) [3; 0; 5; 9; 0; 17] 0 in
       (F32.of_Z level, F32.of_Z level, F32.of_Z level) |}.

(** Coarse stand-ins for [log2] and [exp2], to run the estimator on the
    sample views: the floor of the logarithm, and the power of two of
    the truncated exponent. *)
Definition floor_log2f (x : float32) : float32 :=
  match x with
  | S754_finite false m e => F32.of_Z (Zpos (digits2_pos m) + e - 1)
  | _ => S754_nan
  end.

Definition trunc_exp2f (x : float32) : float32 :=
  match F32.to_int x with
  | Some n => SFldexp F32.prec F32.emax (F32.of_Z 1) n
  | None => S754_nan
  end.

(** Whether a character occurs in a string. *)
Fixpoint contains (c : ascii) (s : string) : bool :=
  match s with
  | EmptyString => false
  | String a s' => Ascii.eqb a c || contains c s'
  end.

(** A grey-scale PFM file of one pixel. *)
Definition grey_file : list ascii :=
  text ("Pf" ++ lf ++ "1 1" ++ lf ++ "-1.0" ++ lf ++ "abcd").

Definition grey_header : pfm_header :=
  {| hC := 1; hW := 1; hH := 1; hscale := F32.of_Z (-1) |}.

(** An image without pixels. *)
Definition no_rows : Tensor := {| dims := [0; 4; 3]; format := "hwc"; data := [] |}.

(** Stand-ins for the remaining parameters of the programs: a [pow]
    that returns its base, and an EXR codec that always fails. *)
Definition base_powf (x y : float32) : float32 := x.

Definition failing_loadImageEXR (filename : string) (d : disk) : outcome Tensor :=
  Throw (runtime_error "EXR codec failure").

Definition failing_saveImageEXR (image : Tensor) (filename : string) (d : disk)
    : outcome disk :=
  Throw (runtime_error "EXR codec failure").

(** A PFM file whose height is not a number. *)
Definition bad_height_file : list ascii :=
  text ("PF" ++ lf ++ "1 x" ++ lf ++ "-1.0" ++ lf ++ "abcdabcdabcd").

(** A view without rows. *)
Definition empty_view : Data2D.t :=
  {| Data2D.height := 0; Data2D.width := 3;
     Data2D.get := fun _ _ => (F32.of_Z 1, F32.of_Z 1, F32.of_Z 1) |}.

(** A 1x1 image with a negative blue sample. *)
Definition negative_pixel : Tensor :=
  {| dims := [1; 1; 3]; format := "hwc";
     data := [F32.pzero; F32.pzero; F32.of_Z (-1)] |}.

(** A 1x2 view whose pixels have a NaN channel. *)
Definition nan_view : Data2D.t :=
  {| Data2D.height := 1; Data2D.width := 2;
     Data2D.get := fun _ _ => (F32.nan, F32.pzero, F32.pzero) |}.

(** ** Float constants of the sources *)

Definition f_one : float32 := Eval vm_compute in F32.of_decimal false 1 0.
Definition f_2_2 : float32 := Eval vm_compute in F32.of_decimal false 22 (-1).
Definition f_255 : float32 := Eval vm_compute in F32.of_decimal false 255 0.
Definition f_key : float32 := Eval vm_compute in F32.of_decimal false 18 (-2).
Definition f_eps : float32 := Eval vm_compute in F32.of_decimal false 1 (-7).
Definition f_lum_r : float32 := Eval vm_compute in F32.of_decimal false 212671 (-6).
Definition f_lum_g : float32 := Eval vm_compute in F32.of_decimal false 715160 (-6).
Definition f_lum_b : float32 := Eval vm_compute in F32.of_decimal false 72169 (-6).

(** ** The math library *)

Definition is_integer (y : float32) : bool :=
  match y with
  | S754_zero _ => true
  | S754_finite _ m e => if 0 <=? e then true else Zpos m mod 2 ^ (- e) =? 0
  | _ => false
  end.

Definition is_odd_integer (y : float32) : bool :=
  match y with
  | S754_finite _ m e =>
      if 0 <? e then false
      else (Zpos m mod 2 ^ (- e) =? 0) && Z.odd (Zpos m / 2 ^ (- e))
  | _ => false
  end.

Definition is_negative (y : float32) : bool := F32.ltb y F32.pzero.

Section Programs.

(** What the platform's math library computes: [pow] on a finite
    non-zero base and a finite non-zero exponent for which the result
    is not fixed by the C standard, [log2] and [exp2]. *)
Variable pow_finite : float32 -> float32 -> float32.
Variable log2f : float32 -> float32.
Variable exp2f : float32 -> float32.

(** Whether the EXR codec is compiled in ([HAS_OPEN_EXR]), and the
    codec itself, which wraps an external library. *)
Variable HAS_OPEN_EXR : bool.
Variable loadImageEXR : string -> disk -> outcome Tensor.
Variable saveImageEXR : Tensor -> string -> disk -> outcome disk.

(** [pow(x, y)]: the special values of C Annex F.10.4.4, and
    [pow_finite] elsewhere. *)
Definition powf (x y : float32) : float32 :=
  match x, y with
  | _, S754_zero _ => f_one
  | S754_nan, _ => S754_nan
  | _, S754_nan => if SFeqb x f_one then f_one else S754_nan
  | S754_zero sx, _ =>
      if is_negative y
      then S754_infinity (sx && is_odd_integer y)
      else S754_zero (sx && is_odd_integer y)
  | _, S754_infinity sy =>
      if SFeqb (F32.abs x) f_one then f_one
      else if xorb (F32.ltb (F32.abs x) f_one) sy then F32.pzero else F32.pinf
  | S754_infinity sx, _ =>
      if is_negative y
      then S754_zero (sx && is_odd_integer y)
      else S754_infinity (sx && is_odd_integer y)
  | S754_finite sx _ _, S754_finite _ _ _ =>
      if SFeqb x f_one then f_one
      else if sx && negb (is_integer y) then S754_nan
      else pow_finite x y
  end.

(** ** The PPM encoder *)

(** One sample: gamma, scale by 255, truncate, clamp, narrow to a
    byte. [None] when the conversion to [int] is undefined. *)
Definition ppm_sample (x : float32) : option ascii :=
  let x := powf x (F32.div f_one f_2_2) in
  match F32.to_int (F32.mul x f_255) with
  | Some n => Some (char_of (Z.min (Z.max n 0) 255))
  | None => None
  end.

Definition ppm_body (image : Tensor) (H W C : Z) (file : option (list ascii))
    : option (list ascii) :=
  for_range 0 (Int.mul W H) (fun i =>
    for_range 0 3 (fun c file =>
      match file with
      | Some bytes =>
          let x := tensor_get image (Int.add (Int.mul i C) c) in
          match ppm_sample x with
          | Some ch => Some (bytes ++ [ch])
          | None => None
          end
      | None => None
      end)) file.

Definition saveImagePPM (image : Tensor) (filename : string) (d : disk) : outcome disk :=
  if not_hwc3 image then Throw (invalid_argument "image must have 3 channels")
  else
    let H := dim image 0 in
    let W := dim image 1 in
    let C := dim image 2 in
    if negb (can_write d filename)
    then Throw (runtime_error ("cannot open file: '" ++ filename ++ "'"))
    else
      let file := text "P6" ++ [newline] in
      let file := file ++ print_int W ++ text " " ++ print_int H ++ [newline] in
      let file := file ++ text "255" ++ [newline] in
      match ppm_body image H W C (Some file) with
      | Some bytes => Ok (write_file d filename bytes)
      | None => Undefined
      end.

(** ** Extension dispatch *)

(** [s.rfind(c)]: index of the last occurrence, [None] for [npos]. *)
Fixpoint rfind (c : ascii) (s : string) : option nat :=
  match s with
  | EmptyString => None
  | String a s' =>
      match rfind c s' with
      | Some i => Some (S i)
      | None => if Ascii.eqb a c then Some O else None
      end
  end.

(** [s.substr(pos)]: the suffix from [pos]; throws past the end. *)
Fixpoint substr (s : string) (pos : nat) : outcome string :=
  match pos, s with
  | O, _ => Ok s
  | S p, String _ s' => substr s' p
  | S _, EmptyString => Throw (out_of_range "basic_string::substr")
  end.

Definition fileExtensionOf (filename : string) : outcome string :=
  match rfind "." filename with
  | None => Throw (invalid_argument "filename has no extension")
  | Some index => substr filename (index + 1)
  end.

Definition loadImage (filename : string) (d : disk) : outcome Tensor :=
  match fileExtensionOf filename with
  | Ok format =>
      if HAS_OPEN_EXR && String.eqb format "exr" then loadImageEXR filename d
      else if String.eqb format "pfm" then loadImagePFM filename d
      else Throw (invalid_argument "image format is not supported")
  | Throw e => Throw e
  | Undefined => Undefined
  end.

Definition saveImage (image : Tensor) (filename : string) (d : disk) : outcome disk :=
  match fileExtensionOf filename with
  | Ok format =>
      if HAS_OPEN_EXR && String.eqb format "exr" then saveImageEXR image filename d
      else if String.eqb format "pfm" then saveImagePPM image filename d
      else Throw (invalid_argument "image format is not supported")
  | Throw e => Throw e
  | Undefined => Undefined
  end.

(** ** Auto-exposure *)

Definition luminance (r g b : float32) : float32 :=
  F32.add (F32.add (F32.mul f_lum_r r) (F32.mul f_lum_g g)) (F32.mul f_lum_b b).

(** [std::pair<float, int>]. *)
Definition Sum : Type := float32 * Z.

(** The body of the reduction over the rows [rb, re). *)
Definition sum_rows (input : Data2D.t) (rb re : Z) (sum : Sum) : Sum :=
  for_range rb re (fun h =>
    for_range 0 (Data2D.width input) (fun w sum =>
      let '(r, g, b) := Data2D.get input h w in
      let L := luminance r g b in
      if F32.ltb f_eps L
      then (F32.add (fst sum) (log2f L), Int.add (snd sum) 1)
      else sum)) sum.

Definition sum_join (a b : Sum) : Sum :=
  (F32.add (fst a) (fst b), Int.add (snd a) (snd b)).

Definition autoexposure (s : schedule) (input : Data2D.t) : float32 :=
  let sum :=
    parallel_reduce s 0 (Data2D.height input) (F32.pzero, 0) (sum_rows input) sum_join in
  if 0 <? snd sum
  then F32.div f_key (exp2f (F32.div (fst sum) (F32.of_Z (snd sum))))
  else f_one.

(** *** The estimate as the specification words it *)

Definition pixel_luminance (input : Data2D.t) (h w : Z) : float32 :=
  let '(r, g, b) := Data2D.get input h w in luminance r g b.

(** The integers [lo], [lo+1], ..., [hi-1]. *)
Definition zrange (lo hi : Z) : list Z :=
  map (fun i => lo + Z.of_nat i) (seq 0 (Z.to_nat (hi - lo))).

(** Luminances of the pixels of the rows [rb, re), in row-major order. *)
Definition luminances (input : Data2D.t) (rb re : Z) : list float32 :=
  flat_map (fun h => map (pixel_luminance input h) (zrange 0 (Data2D.width input)))
           (zrange rb re).

(** The luminances that exceed the epsilon. *)
Definition bright (input : Data2D.t) (rb re : Z) : list float32 :=
  List.filter (fun L => F32.ltb f_eps L) (luminances input rb re).

(** The float of a decimal literal [m * 10^k]. *)
Definition lit (m k : Z) : float32 := F32.of_decimal false m k.

(** [L = 0.212671*R + 0.715160*G + 0.072169*B], in float arithmetic. *)
Definition weighted_luminance (px : float32 * float32 * float32) : float32 :=
  let '(r, g, b) := px in
  F32.add (F32.add (F32.mul (lit 212671 (-6)) r) (F32.mul (lit 715160 (-6)) g))
          (F32.mul (lit 72169 (-6)) b).

(** [L > 1e-7]. *)
Definition exceeds_epsilon (L : float32) : bool := F32.ltb (lit 1 (-7)) L.

(** The luminances of the rows [rb, re) that exceed the epsilon, in
    row-major order: the pixels that are counted. *)
Definition counted_luminances (input : Data2D.t) (rb re : Z) : list float32 :=
  List.filter exceeds_epsilon
    (map weighted_luminance
       (flat_map (fun h => map (Data2D.get input h) (zrange 0 (Data2D.width input)))
                 (zrange rb re))).

(** The number of counted pixels of the image. *)
Definition counted (input : Data2D.t) : Z :=
  Z.of_nat (length (counted_luminances input 0 (Data2D.height input))).

(** The sum of [log2 L] over the counted pixels of the rows [lo, hi),
    in the order of an execution: inside a chunk the terms are added
    one by one, in row-major order, to the value [acc] the body holds;
    a chunk taken by a fresh body is summed from [0.f] and added to the
    sum of what precedes it. *)
Fixpoint executed_sum (s : schedule) (input : Data2D.t) (lo hi : Z) (acc : float32)
    : float32 :=
  match s with
  | Run =>
      fold_left (fun acc L => F32.add acc (log2f L)) (counted_luminances input lo hi) acc
  | Split mid l r =>
      F32.add (executed_sum l input lo mid acc) (executed_sum r input mid hi F32.pzero)
  | Continue mid l r =>
      executed_sum r input mid hi (executed_sum l input lo mid acc)
  end.

(** The number of bright pixels of the image. *)
Definition bright_count (input : Data2D.t) : Z :=
  Z.of_nat (length (bright input 0 (Data2D.height input))).

(** ** File layouts *)

(** The header lines of a PFM file and of a PPM file. *)
Definition pfm_header_bytes (W H : Z) : list ascii :=
  text "PF" ++ [newline] ++ print_int W ++ text " " ++ print_int H ++ [newline]
  ++ text "-1.0" ++ [newline].

Definition ppm_header_bytes (W H : Z) : list ascii :=
  text "P6" ++ [newline] ++ print_int W ++ text " " ++ print_int H ++ [newline]
  ++ text "255" ++ [newline].

(** The bytes of the first [n] samples of the buffer, in memory order;
    [None] as soon as one conversion is undefined. *)
Definition ppm_samples (image : Tensor) (n : nat) : option (list ascii) :=
  mapM (fun i => ppm_sample (tensor_get image (Z.of_nat i))) (seq 0 n).

(** ** Loop invariants *)

(** The state of a stream that had [len] unread bytes and was good,
    after [k] reads of a float: good with [4k] bytes fewer, or failed
    as soon as the bytes ran out. *)
Definition after_reads (len k : Z) (s : istream) : Prop :=
  (4 * k <= len -> good s = true /\ Z.of_nat (length (buf s)) = len - 4 * k)
  /\ (len < 4 * k -> failbit s = true).

(** State of the pixel loops of [loadImagePFM] after [k] samples: the
    stream is good and stands [4k] bytes into the body, the tensor has
    kept its shape, and every sample read so far sits, scaled, in the
    vertically mirrored cell. *)
Definition decoded (H W C : Z) (scale : float32) (body : list ascii) (k : Z)
    (st : istream * Tensor) : Prop :=
  good (fst st) = true
  /\ buf (fst st) = drop (Z.to_nat (4 * k)) body
  /\ dims (snd st) = [H; W; C]
  /\ format (snd st) = "hwc"%string
  /\ Z.of_nat (length (data (snd st))) = H * W * C
  /\ forall h w c, 0 <= h < H -> 0 <= w < W -> 0 <= c < C ->
       linear_index W C h w c < k ->
       tensor_get (snd st) (linear_index W C (H - 1 - h) w c)
       = F32.mul (stored_sample body (linear_index W C h w c)) scale.

(** State of the pixel loops of [saveImagePFM] after [k] samples: the
    file is the header followed by [4k] bytes, and the sample written
    at position [(h, w, c)] is the one held by the vertically mirrored
    cell. *)
Definition encoded (image : Tensor) (H W : Z) (header : list ascii) (k : Z)
    (file : list ascii) : Prop :=
  exists body,
    file = header ++ body
    /\ Z.of_nat (length body) = 4 * k
    /\ forall h w c, 0 <= h < H -> 0 <= w < W -> 0 <= c < 3 ->
         linear_index W 3 h w c < k ->
         take 4 (drop (Z.to_nat (4 * linear_index W 3 h w c)) body)
         = F32.to_bytes (tensor_get image (linear_index W 3 (H - 1 - h) w c)).

(** ** Proof automation *)

(** Bounds on [int] values, by linear arithmetic. *)
Ltac int_lia := unfold Int.in_range, Int.min_signed, Int.max_signed in *; lia.

(** * Properties *)

(** ** Loops *)

Lemma for_range_empty {St : Type} (lo hi : Z) (body : Z -> St -> St) (s : St) :
  hi <= lo -> for_range lo hi body s = s.
Proof.
  intros Hle. unfold for_range.
  replace (Z.to_nat (hi - lo)) with O by lia. reflexivity.
Qed.

Lemma for_range_snoc {St : Type} (lo hi : Z) (body : Z -> St -> St) (s : St) :
  lo <= hi -> for_range lo (hi + 1) body s = body hi (for_range lo hi body s).
Proof.
  intros Hle. unfold for_range.
  replace (Z.to_nat (hi + 1 - lo)) with (Z.to_nat (hi - lo) + 1)%nat by lia.
  rewrite seq_app, fold_left_app. simpl.
  f_equal. lia.
Qed.

(** Loop invariant rule: an invariant that holds on entry and is kept
    by every iteration holds on exit. *)
Lemma for_range_invariant {St : Type} (P : Z -> St -> Prop) (lo hi : Z)
    (body : Z -> St -> St) (s : St) :
  lo <= hi ->
  P lo s ->
  (forall i t, lo <= i < hi -> P i t -> P (i + 1) (body i t)) ->
  P hi (for_range lo hi body s).
Proof.
  intros Hle H0 Hstep.
  assert (Hn : forall n : nat, lo + Z.of_nat n <= hi ->
            P (lo + Z.of_nat n) (for_range lo (lo + Z.of_nat n) body s)).
  { induction n as [|n IH]; intros Hb.
    - rewrite for_range_empty by lia. now rewrite Z.add_0_r.
    - replace (lo + Z.of_nat (S n)) with (lo + Z.of_nat n + 1) by lia.
      rewrite for_range_snoc by lia. apply Hstep; [lia|]. apply IH. lia. }
  specialize (Hn (Z.to_nat (hi - lo))).
  replace (lo + Z.of_nat (Z.to_nat (hi - lo))) with hi in Hn by lia.
  apply Hn. lia.
Qed.

Lemma for_range_ext {St : Type} (lo hi : Z) (f g : Z -> St -> St) (s : St) :
  (forall i t, lo <= i < hi -> f i t = g i t) ->
  for_range lo hi f s = for_range lo hi g s.
Proof.
  intros Hfg.
  destruct (Z_le_gt_dec lo hi) as [Hle|Hgt].
  - apply (for_range_invariant
             (fun i t => t = for_range lo i g s) lo hi f s Hle).
    + now rewrite for_range_empty by lia.
    + intros i t Hi ->. rewrite for_range_snoc by lia. now apply Hfg.
  - now rewrite !for_range_empty by lia.
Qed.

(** An invariant that does not mention the loop counter. *)
Lemma for_range_preserves {St : Type} (P : St -> Prop) (lo hi : Z)
    (body : Z -> St -> St) (s : St) :
  P s -> (forall i t, lo <= i < hi -> P t -> P (body i t)) ->
  P (for_range lo hi body s).
Proof.
  intros Hs Hstep. destruct (Z_le_gt_dec lo hi) as [Hle|Hgt].
  - now apply (for_range_invariant (fun _ => P)).
  - now rewrite for_range_empty by lia.
Qed.

(** ** Single-precision floats: comparison *)

Lemma SFcompare_antisym (x y : float32) :
  SFcompare y x = option_map CompOpp (SFcompare x y).
Proof.
  destruct x as [sx|sx| |sx mx ex], y as [sy|sy| |sy my ey]; simpl;
    try reflexivity;
    try (destruct sx; reflexivity); try (destruct sy; reflexivity);
    try (destruct sx, sy; reflexivity).
  destruct sx, sy; simpl; try reflexivity;
    rewrite (Z.compare_antisym ex ey); destruct (ex ?= ey) eqn:He; simpl;
    try reflexivity;
    rewrite (Pos.compare_cont_antisym mx my Eq); simpl;
    try rewrite CompOpp_involutive; reflexivity.
Qed.

Lemma ltb_not_leb (x y : float32) : F32.ltb x y = true -> F32.leb y x = false.
Proof.
  unfold F32.ltb, F32.leb, SFltb, SFleb. rewrite (SFcompare_antisym x y).
  destruct (SFcompare x y) as [[| |]|]; simpl; congruence.
Qed.

Lemma leb_not_ltb (x y : float32) : F32.leb x y = true -> F32.ltb y x = false.
Proof.
  unfold F32.ltb, F32.leb, SFltb, SFleb. rewrite (SFcompare_antisym x y).
  destruct (SFcompare x y) as [[| |]|]; simpl; congruence.
Qed.

(** ** Single-precision floats: encoding and multiplication by one *)

Lemma digits2_pos_size (m : positive) : digits2_pos m = Pos.size m.
Proof. induction m as [m IH|m IH|]; simpl; congruence. Qed.

Lemma size_bounds (m : positive) :
  2 ^ (Zpos (Pos.size m) - 1) <= Zpos m < 2 ^ Zpos (Pos.size m).
Proof.
  pose proof (Pos.size_gt m) as Hgt. pose proof (Pos.size_le m) as Hle.
  apply Pos2Z.pos_lt_pos in Hgt. apply Pos2Z.pos_le_pos in Hle.
  rewrite Pos2Z.inj_pow in Hgt, Hle.
  split; [|exact Hgt].
  replace (Zpos (Pos.size m)) with (Zpos (Pos.size m) - 1 + 1) in Hle by lia.
  rewrite Z.pow_add_r, Z.pow_1_r in Hle by lia. lia.
Qed.

(** What validity says about a finite single-precision float. *)
Lemma valid_finite (s : bool) (m : positive) (e : Z) :
  F32.valid (S754_finite s m e) ->
  Zpos m < 2 ^ 24 /\ -149 <= e <= 104 /\ (Zpos m < 2 ^ 23 -> e = -149)
  /\ fexp F32.prec F32.emax (Zpos (digits2_pos m) + e) = e.
Proof.
  unfold F32.valid, valid_binary, bounded, canonical_mantissa.
  intros Hv. apply andb_true_iff in Hv. destruct Hv as [Hc Hb].
  apply Z.eqb_eq in Hc. apply Z.leb_le in Hb.
  split; [|split; [|split]]; try exact Hc.
  all: revert Hc Hb; unfold fexp, emin, F32.prec, F32.emax;
    rewrite digits2_pos_size; pose proof (size_bounds m) as [Hlo Hhi]; intros Hc Hb.
  - assert (Hd : Zpos (Pos.size m) <= 24) by lia.
    pose proof (Z.pow_le_mono_r 2 _ _ ltac:(lia) Hd). lia.
  - lia.
  - intros Hsmall.
    assert (Hd : Zpos (Pos.size m) - 1 < 23).
    { apply (Z.pow_lt_mono_r_iff 2); lia. }
    lia.
Qed.

Lemma mul_one_r (x : float32) : F32.valid x -> F32.mul x f_one = x.
Proof.
  destruct x as [s|s| |s m e]; intros Hv; simpl; try reflexivity; try now rewrite xorb_false_r.
  destruct (valid_finite s m e Hv) as (Hm & He & _ & Hfexp).
  rewrite xorb_false_r. unfold binary_round_aux, shr_fexp.
  rewrite (Pos.mul_comm m).
  assert (Hsh : (8388608 * m)%positive = Pos.iter xO m 23) by reflexivity.
  rewrite Hsh. clear Hsh.
  assert (Hdig : Zdigits2 (Zpos (Pos.iter xO m 23)) = Zpos (digits2_pos m) + 23).
  { simpl. lia. }
  rewrite Hdig.
  replace (Zpos (digits2_pos m) + 23 + (e + -23)) with (Zpos (digits2_pos m) + e) by lia.
  rewrite Hfexp.
  replace (e - (e + -23)) with 23 by lia.
  assert (Hshr : shr (shr_record_of_loc (Zpos (Pos.iter xO m 23)) loc_Exact) (e + -23) 23
                 = ({| shr_m := Zpos m; shr_r := false; shr_s := false |}, e)).
  { simpl. f_equal. lia. }
  rewrite Hshr. cbn [shr_m loc_of_shr_record round_nearest_even Zdigits2].
  rewrite Hfexp, Z.sub_diag. cbn [shr shr_record_of_loc shr_m].
  replace (e <=? F32.emax - F32.prec) with true
    by (symmetry; apply Z.leb_le; unfold F32.emax, F32.prec; lia).
  reflexivity.
Qed.

Lemma byte_val_byte_at (b i : Z) :
  F32.byte_val (F32.byte_at b i) = (b / 2 ^ (8 * i)) mod 256.
Proof.
  unfold F32.byte_val, F32.byte_at.
  pose proof (Z.mod_pos_bound (b / 2 ^ (8 * i)) 256 ltac:(lia)) as Hb.
  rewrite N_ascii_embedding by lia. lia.
Qed.

Lemma bits_of_bounds (x : float32) : F32.valid x -> 0 <= F32.bits_of x < 2 ^ 32.
Proof.
  destruct x as [s|s| |s m e]; intros Hv; unfold F32.bits_of, F32.sign_bit;
    try (destruct s; lia); try lia.
  destruct (valid_finite s m e Hv) as (Hm & He & Hsub & _).
  destruct (2 ^ 23 <=? Zpos m) eqn:Hn;
    [apply Z.leb_le in Hn|apply Z.leb_gt in Hn]; destruct s; lia.
Qed.

Lemma of_bits_bits_of (x : float32) : F32.valid x -> F32.of_bits (F32.bits_of x) = x.
Proof.
  destruct x as [s|s| |s m e]; intros Hv;
    try (destruct s; reflexivity); try reflexivity.
  destruct (valid_finite s m e Hv) as (Hm & He & Hsub & _).
  unfold F32.bits_of, F32.sign_bit.
  destruct (2 ^ 23 <=? Zpos m) eqn:Hn; [apply Z.leb_le in Hn|apply Z.leb_gt in Hn].
  - set (b := (if s then 2 ^ 31 else 0) + (e + 150) * 2 ^ 23 + (Zpos m - 2 ^ 23)).
    assert (Hex : (b / 2 ^ 23) mod 256 = e + 150).
    { subst b. destruct s; Z.div_mod_to_equations; lia. }
    assert (Hfr : b mod 2 ^ 23 = Zpos m - 2 ^ 23).
    { subst b. destruct s; Z.div_mod_to_equations; lia. }
    assert (Hs : (2 ^ 31 <=? b) = s).
    { subst b. destruct s; [apply Z.leb_le|apply Z.leb_gt]; lia. }
    unfold F32.of_bits. rewrite Hex, Hfr, Hs.
    replace (e + 150 =? 0) with false by (symmetry; apply Z.eqb_neq; lia).
    replace (e + 150 =? 255) with false by (symmetry; apply Z.eqb_neq; lia).
    f_equal; lia.
  - specialize (Hsub Hn). subst e.
    set (b := (if s then 2 ^ 31 else 0) + Zpos m).
    assert (Hex : (b / 2 ^ 23) mod 256 = 0).
    { subst b. destruct s; Z.div_mod_to_equations; lia. }
    assert (Hfr : b mod 2 ^ 23 = Zpos m).
    { subst b. destruct s; Z.div_mod_to_equations; lia. }
    assert (Hs : (2 ^ 31 <=? b) = s).
    { subst b. destruct s; [apply Z.leb_le|apply Z.leb_gt]; lia. }
    unfold F32.of_bits. rewrite Hex, Hfr, Hs. simpl. reflexivity.
Qed.

Lemma of_bytes_to_bytes (x : float32) : F32.valid x -> F32.of_bytes (F32.to_bytes x) = x.
Proof.
  intros Hv. unfold F32.of_bytes, F32.to_bytes. cbn [fold_right].
  rewrite !byte_val_byte_at.
  pose proof (bits_of_bounds x Hv) as Hb.
  rewrite <- (of_bits_bits_of x Hv) at 5. f_equal.
  revert Hb. generalize (F32.bits_of x). intros b Hb. clear - Hb.
  change (2 ^ (8 * 0)) with 1. change (2 ^ (8 * 1)) with 256.
  change (2 ^ (8 * 2)) with 65536. change (2 ^ (8 * 3)) with 16777216.
  change (2 ^ 32) with 4294967296 in Hb.
  Z.div_mod_to_equations. lia.
Qed.

(** ** Decimal text *)

Lemma code_char_of (z : Z) : 0 <= z < 256 -> code (char_of z) = z.
Proof.
  intros Hz. unfold code, char_of. rewrite N_ascii_embedding by lia. lia.
Qed.

Lemma digit_char_spec (d : Z) :
  0 <= d < 10 -> isdigit (digit_char d) = true /\ code (digit_char d) - 48 = d.
Proof.
  intros Hd. unfold isdigit, digit_char. rewrite code_char_of by lia.
  split; [|lia]. apply andb_true_iff. split; apply Z.leb_le; lia.
Qed.

Lemma digits_value_snoc (ds : list ascii) (c : ascii) :
  digits_value (ds ++ [c]) = 10 * digits_value ds + (code c - 48).
Proof. unfold digits_value. now rewrite fold_left_app. Qed.

Lemma print_digits_spec (fuel : positive) (n : Z) (acc : list ascii) :
  0 <= n <= Zpos fuel ->
  exists ds, print_digits fuel n acc = ds ++ acc
    /\ ds <> [] /\ forallb isdigit ds = true /\ digits_value ds = n.
Proof.
  revert n acc.
  assert (Hlast : forall n acc, 0 <= n < 10 ->
            exists ds, digit_char (n mod 10) :: acc = ds ++ acc
              /\ ds <> [] /\ forallb isdigit ds = true /\ digits_value ds = n).
  { intros n acc Hn. exists [digit_char (n mod 10)].
    rewrite Z.mod_small by lia.
    destruct (digit_char_spec n Hn) as [Hd Hv].
    split; [reflexivity|]. split; [discriminate|]. split.
    - simpl. now rewrite Hd.
    - unfold digits_value. simpl. lia. }
  assert (Hmore : forall f n acc,
            (forall n acc, 0 <= n <= Zpos f ->
               exists ds, print_digits f n acc = ds ++ acc
                 /\ ds <> [] /\ forallb isdigit ds = true /\ digits_value ds = n) ->
            0 <= n -> n / 10 <= Zpos f ->
            exists ds, print_digits f (n / 10) (digit_char (n mod 10) :: acc) = ds ++ acc
              /\ ds <> [] /\ forallb isdigit ds = true /\ digits_value ds = n).
  { intros f n acc IH Hn Hf.
    destruct (IH (n / 10) (digit_char (n mod 10) :: acc)
                ltac:(split; [apply Z.div_pos; lia|exact Hf]))
      as (ds & Heq & Hne & Hall & Hval).
    pose proof (Z.mod_pos_bound n 10 ltac:(lia)) as Hm.
    destruct (digit_char_spec (n mod 10) Hm) as [Hd Hv].
    exists (ds ++ [digit_char (n mod 10)]). split.
    - rewrite Heq, <- app_assoc. reflexivity.
    - split; [destruct ds; discriminate|]. split.
      + rewrite forallb_app, Hall. simpl. now rewrite Hd.
      + rewrite digits_value_snoc, Hval, Hv.
        pose proof (Z.div_mod n 10 ltac:(lia)). lia. }
  induction fuel as [f IH|f IH|]; intros n acc Hn; simpl;
    destruct (n <? 10) eqn:Hlt;
    try (apply Z.ltb_lt in Hlt; apply Hlast; lia);
    apply Z.ltb_ge in Hlt.
  - apply Hmore; [exact IH|lia|]. apply Z.div_le_upper_bound; lia.
  - apply Hmore; [exact IH|lia|]. apply Z.div_le_upper_bound; lia.
  - lia.
Qed.

Lemma print_int_spec (n : Z) :
  0 <= n ->
  exists ds, print_int n = ds
    /\ ds <> [] /\ forallb isdigit ds = true /\ digits_value ds = n.
Proof.
  intros Hn. destruct n as [|p|p]; [| |lia].
  - exists [digit_char 0]. repeat split; discriminate || reflexivity.
  - unfold print_int.
    destruct (print_digits_spec p (Zpos p) [] ltac:(lia)) as (ds & Heq & Hrest).
    exists ds. rewrite Heq, app_nil_r. split; [reflexivity|exact Hrest].
Qed.

Lemma span_stop (p : ascii -> bool) (l : list ascii) (c : ascii) (tail : list ascii) :
  forallb p l = true -> p c = false -> span p (l ++ c :: tail) = (l, c :: tail).
Proof.
  intros Hl Hc. induction l as [|a l IH]; simpl.
  - now rewrite Hc.
  - simpl in Hl. apply andb_true_iff in Hl. destruct Hl as [Ha Hl].
    now rewrite Ha, (IH Hl).
Qed.

(** Reading back a number that was printed between two separators. *)
Lemma extract_int_print_int (n : Z) (ws sep : ascii) (tail : list ascii) :
  0 <= n <= Int.max_signed -> isspace ws = true -> isdigit sep = false ->
  extract_int (stream_of (ws :: print_int n ++ sep :: tail))
  = (n, stream_of (sep :: tail)).
Proof.
  intros Hn Hws Hsep.
  destruct (print_int_spec n ltac:(lia)) as (ds & -> & Hne & Hall & Hval).
  destruct ds as [|d ds]; [congruence|].
  pose proof Hall as Hall'. simpl in Hall'. apply andb_true_iff in Hall'.
  destruct Hall' as [Hd _].
  assert (Hdc : 48 <= code d <= 57).
  { unfold isdigit in Hd. apply andb_true_iff in Hd. destruct Hd as [H1 H2].
    apply Z.leb_le in H1, H2. lia. }
  assert (Hnsp : isspace d = false).
  { unfold isspace. apply orb_false_iff. split; [apply Z.eqb_neq; lia|].
    apply andb_false_iff. right. apply Z.leb_gt. lia. }
  unfold extract_int, sentry, stream_of, good. cbn [eofbit failbit buf negb andb].
  cbn [span app]. rewrite Hws. cbn [span]. rewrite Hnsp. cbn [snd buf].
  unfold read_sign.
  replace (code d =? 45) with false by (symmetry; apply Z.eqb_neq; lia).
  replace (code d =? 43) with false by (symmetry; apply Z.eqb_neq; lia).
  change (d :: ds ++ sep :: tail) with ((d :: ds) ++ sep :: tail).
  rewrite (span_stop isdigit (d :: ds) sep tail Hall Hsep), Hval.
  cbn [at_end orb].
  assert (Hr : Int.in_rangeb n = true).
  { unfold Int.in_rangeb, Int.min_signed, Int.max_signed in *.
    apply andb_true_iff. split; apply Z.leb_le; lia. }
  rewrite Hr.
  replace (Int.max_signed <? n) with false by (symmetry; apply Z.ltb_ge; lia).
  replace (n <? Int.min_signed) with false
    by (symmetry; apply Z.ltb_ge; unfold Int.min_signed; lia).
  reflexivity.
Qed.

(** ** Tensor cells *)

Lemma tensor_get_set_same (t : Tensor) (i : Z) (x : float32) :
  0 <= i < Z.of_nat (length (data t)) -> tensor_get (tensor_set t i x) i = x.
Proof.
  intros Hi. unfold tensor_get, tensor_set.
  replace (0 <=? i) with true by (symmetry; apply Z.leb_le; lia). cbn [data].
  apply nth_lookup_Some with (d := F32.pzero) (x := x) (i := Z.to_nat i).
  apply list_lookup_insert_eq. lia.
Qed.

Lemma tensor_get_set_other (t : Tensor) (i j : Z) (x : float32) :
  0 <= j -> i <> j -> tensor_get (tensor_set t i x) j = tensor_get t j.
Proof.
  intros Hj Hij. unfold tensor_get, tensor_set.
  replace (0 <=? j) with true by (symmetry; apply Z.leb_le; lia).
  destruct (0 <=? i) eqn:Hi; [|reflexivity]. cbn [data].
  apply Z.leb_le in Hi.
  rewrite !nth_lookup, list_lookup_insert_ne by lia. reflexivity.
Qed.

Lemma tensor_set_shape (t : Tensor) (i : Z) (x : float32) :
  dims (tensor_set t i x) = dims t
  /\ format (tensor_set t i x) = format t
  /\ length (data (tensor_set t i x)) = length (data t).
Proof.
  unfold tensor_set. destruct (0 <=? i); cbn [dims format data]; auto.
  now rewrite length_insert.
Qed.

(** ** Index arithmetic *)

Lemma wrap_in_range (z : Z) : Int.in_range z -> Int.wrap z = z.
Proof.
  unfold Int.wrap. intros Hz. rewrite Z.mod_small; int_lia.
Qed.

Lemma linear_index_bounds (H W C h w c : Z) :
  0 <= h < H -> 0 <= w < W -> 0 <= c < C ->
  0 <= linear_index W C h w c < H * W * C.
Proof.
  intros Hh Hw Hc. unfold linear_index.
  assert (0 <= h * W) by nia.
  assert (h * W + w + 1 <= H * W) by nia.
  assert (0 <= (h * W + w) * C) by nia.
  assert ((h * W + w + 1) * C <= H * W * C) by nia.
  nia.
Qed.

Lemma linear_index_inj (W C h w c h' w' c' : Z) :
  0 <= w < W -> 0 <= c < C -> 0 <= w' < W -> 0 <= c' < C ->
  linear_index W C h w c = linear_index W C h' w' c' ->
  h = h' /\ w = w' /\ c = c'.
Proof.
  unfold linear_index. intros Hw Hc Hw' Hc' Heq.
  assert (Ha : h * W + w = h' * W + w') by nia.
  assert (Hh : h = h') by nia.
  subst h'. split; [reflexivity|]. split; nia.
Qed.

Lemma flipped_index_exact (H W C h w c : Z) :
  0 <= h < H -> 0 <= w < W -> 0 <= c < C -> H * W * C <= Int.max_signed ->
  flipped_index H W C h w c = linear_index W C (H - 1 - h) w c.
Proof.
  intros Hh Hw Hc Hmax.
  pose proof (linear_index_bounds H W C (H - 1 - h) w c
                ltac:(lia) ltac:(lia) ltac:(lia)) as Hb.
  unfold linear_index in *. unfold Int.max_signed in Hmax.
  assert (0 <= (H - 1 - h) * W) by nia.
  assert (0 <= ((H - 1 - h) * W + w) * C) by nia.
  assert (H <= H * W) by nia.
  assert (H * W <= H * W * C) by nia.
  assert ((H - 1 - h) * W + w <= ((H - 1 - h) * W + w) * C) by nia.
  assert ((H - 1 - h) * W <= (H - 1 - h) * W + w) by lia.
  unfold flipped_index, Int.add, Int.sub, Int.mul.
  repeat rewrite wrap_in_range;
    unfold Int.in_range, Int.min_signed, Int.max_signed; try lia.
Qed.

(** ** Extension dispatch *)

Lemma rfind_trailing (c : ascii) (stem : string) :
  rfind c (stem ++ String c EmptyString) = Some (String.length stem).
Proof.
  induction stem as [|a stem IH]; simpl.
  - now rewrite Ascii.eqb_refl.
  - now rewrite IH.
Qed.

Lemma substr_past_last (stem : string) (c : ascii) :
  substr (stem ++ String c EmptyString) (String.length stem + 1) = Ok EmptyString.
Proof.
  induction stem as [|a stem IH]; simpl; [reflexivity|exact IH].
Qed.

Lemma fileExtensionOf_trailing (stem : string) :
  fileExtensionOf (stem ++ ".") = Ok EmptyString.
Proof.
  unfold fileExtensionOf. rewrite rfind_trailing. apply substr_past_last.
Qed.

(** C9. A file name that ends in its last '.' has the empty extension:
    extraction succeeds, and both [loadImage] and [saveImage] then fail
    with the "image format is not supported" invalid-argument error,
    not with "filename has no extension". *)
Theorem trailing_dot_is_unsupported_format (stem : string) (image : Tensor) (d : disk) :
  fileExtensionOf (stem ++ ".") = Ok EmptyString
  /\ loadImage (stem ++ ".") d
     = Throw (invalid_argument "image format is not supported")
  /\ saveImage image (stem ++ ".") d
     = Throw (invalid_argument "image format is not supported").
Proof.
  unfold loadImage, saveImage. rewrite fileExtensionOf_trailing.
  simpl. rewrite andb_false_r. auto.
Qed.

(** With the [pfm] extension, [saveImage] runs the PPM encoder. *)
Lemma saveImage_pfm (image : Tensor) (filename : string) (d : disk) :
  fileExtensionOf filename = Ok "pfm"%string ->
  saveImage image filename d = saveImagePPM image filename d.
Proof.
  intros Hext. unfold saveImage. rewrite Hext. simpl.
  now rewrite andb_false_r.
Qed.

(** Both encoders only append to the header they start from. *)
Lemma pfm_body_extends (image : Tensor) (H W C : Z) (file : list ascii) :
  exists rest, pfm_body image H W C file = file ++ rest.
Proof.
  unfold pfm_body.
  apply (for_range_preserves (fun f => exists rest, f = file ++ rest)).
  { exists []. now rewrite app_nil_r. }
  intros h f1 _ Hf1. apply for_range_preserves; [exact Hf1|].
  intros w f2 _ Hf2. apply for_range_preserves; [exact Hf2|].
  intros c f3 _ [rest ->]. eexists. now rewrite <- app_assoc.
Qed.

Lemma ppm_body_extends (image : Tensor) (H W C : Z) (file bytes : list ascii) :
  ppm_body image H W C (Some file) = Some bytes ->
  exists rest, bytes = file ++ rest.
Proof.
  unfold ppm_body.
  set (P := fun st : option (list ascii) =>
              forall b, st = Some b -> exists rest, b = file ++ rest).
  assert (HP : P (for_range 0 (Int.mul W H)
                    (fun i => for_range 0 3 (fun c (f : option (list ascii)) =>
                       match f with
                       | Some bytes =>
                           match ppm_sample (tensor_get image (Int.add (Int.mul i C) c)) with
                           | Some ch => Some (bytes ++ [ch])
                           | None => None
                           end
                       | None => None
                       end)) (Some file))).
  { apply for_range_preserves.
    - intros b Hb. injection Hb as <-. exists []. now rewrite app_nil_r.
    - intros i st _ Hst. apply for_range_preserves; [exact Hst|].
      intros c [f|] _ Hf b Hb; [|discriminate].
      destruct (ppm_sample _) as [ch|]; [|discriminate].
      injection Hb as <-. destruct (Hf f eq_refl) as [rest ->].
      eexists. now rewrite <- app_assoc. }
  intros Hb. exact (HP bytes Hb).
Qed.

(** Whenever both encoders accept the image and the file can be
    created, what [saveImage] does under the [pfm] extension is not what
    [saveImagePFM] does: the files differ in their second byte. *)
Lemma saveImage_pfm_differs (image : Tensor) (filename : string) (d : disk) :
  fileExtensionOf filename = Ok "pfm"%string ->
  not_hwc3 image = false -> can_write d filename = true ->
  saveImage image filename d <> saveImagePFM image filename d.
Proof.
  intros Hext Hhwc Hcw. rewrite saveImage_pfm by exact Hext.
  unfold saveImagePPM, saveImagePFM. rewrite Hhwc, Hcw. cbn [negb].
  destruct (ppm_body _ _ _ _ _) as [bytes|] eqn:Hppm; [|discriminate].
  intros Heq.
  apply (f_equal (fun o : outcome disk =>
                    match o with Ok d' => file_at d' filename | _ => None end)) in Heq.
  unfold write_file in Heq. cbn [file_at] in Heq.
  rewrite String.eqb_refl in Heq. injection Heq as Heq.
  destruct (ppm_body_extends _ _ _ _ _ _ Hppm) as [r1 H1].
  match type of Heq with
  | _ = pfm_body ?i ?h ?w ?c ?f => destruct (pfm_body_extends i h w c f) as [r2 H2]
  end.
  rewrite H1, H2 in Heq. repeat rewrite <- app_assoc in Heq.
  cbn [text list_ascii_of_string app] in Heq. discriminate Heq.
Qed.

(** C1. Saving the black 1x1 image as "out.pfm": the dispatcher runs
    the PPM encoder, the file starts with the magic "P6" and holds one
    byte per sample, and it is not the file the PFM encoder writes
    (magic "PF", scale line, four bytes per sample). *)
Theorem saveImage_pfm_extension_writes_ppm :
  saveImage black_pixel "out.pfm" empty_disk
  = saveImagePPM black_pixel "out.pfm" empty_disk
  /\ (exists d, saveImage black_pixel "out.pfm" empty_disk = Ok d
        /\ file_at d "out.pfm"%string
           = Some (text ("P6" ++ lf ++ "1 1" ++ lf ++ "255" ++ lf)
                   ++ replicate 3 (char_of 0)))
  /\ (exists d, saveImagePFM black_pixel "out.pfm" empty_disk = Ok d
        /\ file_at d "out.pfm"%string
           = Some (text ("PF" ++ lf ++ "1 1" ++ lf ++ "-1.0" ++ lf)
                   ++ replicate 12 (char_of 0)))
  /\ saveImage black_pixel "out.pfm" empty_disk
     <> saveImagePFM black_pixel "out.pfm" empty_disk.
Proof.
  split; [apply saveImage_pfm; reflexivity|]. split; [|split].
  - rewrite saveImage_pfm by reflexivity.
    eexists. split; vm_compute; reflexivity.
  - eexists. split; vm_compute; reflexivity.
  - apply saveImage_pfm_differs; reflexivity.
Qed.

(** ** The PFM decoder: header *)

(** C10. The decoder does not check that the dimensions are positive:
    a header declaring width 0 (or height 0) with a negative scale is
    accepted, and the decoder returns a tensor with no element. *)
Theorem loadImagePFM_accepts_zero_dimensions :
  let w0 := text ("PF" ++ lf ++ "0 2" ++ lf ++ "-1.0" ++ lf) in
  let h0 := text ("PF" ++ lf ++ "2 0" ++ lf ++ "-1.0" ++ lf) in
  (exists hd rest, read_pfm_header (stream_of w0) = Ok (hd, rest)
     /\ hW hd = 0 /\ hH hd = 2 /\ F32.ltb (hscale hd) F32.pzero = true)
  /\ loadImagePFM "w0.pfm" (disk_with "w0.pfm" w0)
     = Ok {| dims := [2; 0; 3]; format := "hwc"; data := [] |}
  /\ (exists hd rest, read_pfm_header (stream_of h0) = Ok (hd, rest)
     /\ hW hd = 2 /\ hH hd = 0 /\ F32.ltb (hscale hd) F32.pzero = true)
  /\ loadImagePFM "h0.pfm" (disk_with "h0.pfm" h0)
     = Ok {| dims := [0; 2; 3]; format := "hwc"; data := [] |}.
Proof.
  cbv zeta. split; [|split; [|split]].
  - eexists _, _. split; [vm_compute; reflexivity|]. now vm_compute.
  - vm_compute. reflexivity.
  - eexists _, _. split; [vm_compute; reflexivity|]. now vm_compute.
  - vm_compute. reflexivity.
Qed.

Lemma loadImagePFM_open (filename : string) (d : disk) (bytes : list ascii) :
  file_at d filename = Some bytes ->
  loadImagePFM filename d =
  match read_pfm_header (stream_of bytes) with
  | Ok (hd, file) =>
      if F32.leb F32.pzero (hscale hd)
      then Throw (runtime_error "big-endian PFM images are not supported")
      else
        let '(file, image) :=
          read_pixels (hH hd) (hW hd) (hC hd) (F32.abs (hscale hd))
            (file, Tensor_new [hH hd; hW hd; hC hd] "hwc") in
        if failbit file then Throw (runtime_error "invalid PFM image")
        else Ok image
  | Throw e => Throw e
  | Undefined => Undefined
  end.
Proof.
  intros Hf. unfold loadImagePFM, ifstream_open. rewrite Hf. reflexivity.
Qed.

(** C6, as stated, fails: the four header tokens of this file parse and
    its scale is 1.0, but the file ends with the scale token, so the
    read of the separator byte fails and the decoder reports
    "invalid PFM image". *)
Lemma nonnegative_scale_at_end_of_file :
  ~ (forall (bytes : list ascii) (hd : pfm_header) (filename : string) (d : disk),
       file_at d filename = Some bytes ->
       pfm_tokens (stream_of bytes) = Some hd ->
       F32.leb F32.pzero (hscale hd) = true ->
       loadImagePFM filename d
       = Throw (runtime_error "big-endian PFM images are not supported")).
Proof.
  intros Hall.
  specialize (Hall (text ("PF" ++ lf ++ "1 1" ++ lf ++ "1.0"))
                {| hC := 3; hW := 1; hH := 1; hscale := f_one |}
                "a.pfm"%string
                (disk_with "a.pfm" (text ("PF" ++ lf ++ "1 1" ++ lf ++ "1.0")))).
  vm_compute in Hall.
  specialize (Hall eq_refl eq_refl eq_refl). discriminate Hall.
Qed.

(** C6, amended. When the header is read without failure, separator
    byte included, and the scale is not negative, the decoder throws
    "big-endian PFM images are not supported". *)
Theorem loadImagePFM_rejects_nonnegative_scale
    (filename : string) (d : disk) (bytes : list ascii)
    (hd : pfm_header) (rest : istream) :
  file_at d filename = Some bytes ->
  read_pfm_header (stream_of bytes) = Ok (hd, rest) ->
  F32.leb F32.pzero (hscale hd) = true ->
  loadImagePFM filename d
  = Throw (runtime_error "big-endian PFM images are not supported").
Proof.
  intros Hf Hhd Hs. rewrite (loadImagePFM_open _ _ _ Hf), Hhd. simpl.
  now rewrite Hs.
Qed.

(** ** The PFM decoder: body *)

Lemma after_reads_step (len k : Z) (s : istream) :
  0 <= k -> after_reads len k s -> after_reads len (k + 1) (snd (read_float s)).
Proof.
  intros Hk [Hin Hout]. unfold read_float, read.
  destruct (Z_le_gt_dec (4 * k) len) as [Hle|Hgt].
  - destruct (Hin Hle) as [Hgood Hlen]. rewrite Hgood.
    destruct (4 <=? length (buf s))%nat eqn:H4; cbn [snd fst failbit].
    + apply Nat.leb_le in H4. split; intros Hb.
      * split; [reflexivity|]. cbn [buf]. rewrite length_drop. lia.
      * lia.
    + apply Nat.leb_gt in H4. split; intros Hb; [lia|reflexivity].
  - specialize (Hout ltac:(lia)). unfold good. rewrite Hout, andb_false_r. simpl.
    split; intros Hb; [lia|reflexivity].
Qed.

Lemma read_pixels_stream (H W C : Z) (scale : float32) (len k0 : Z)
    (file : istream) (image : Tensor) :
  0 <= k0 -> 0 <= H -> 0 <= W -> 0 <= C ->
  after_reads len k0 file ->
  after_reads len (k0 + H * W * C) (fst (read_pixels H W C scale (file, image))).
Proof.
  intros Hk0 HH HW HC Hfile. unfold read_pixels.
  apply (for_range_invariant
           (fun h st => after_reads len (k0 + h * W * C) (fst st)) 0 H _ _ HH).
  { simpl. now rewrite Z.add_0_r. }
  intros h st Hh Hst.
  replace (k0 + (h + 1) * W * C) with (k0 + h * W * C + W * C) by lia.
  assert (Hkh : 0 <= k0 + h * W * C) by nia.
  revert Hkh Hst. generalize (k0 + h * W * C). intros k1 Hk1 Hst.
  apply (for_range_invariant
           (fun w st => after_reads len (k1 + w * C) (fst st)) 0 W _ _ HW).
  { now rewrite Z.add_0_r. }
  intros w st1 Hw Hst1.
  replace (k1 + (w + 1) * C) with (k1 + w * C + C) by lia.
  assert (Hkw : 0 <= k1 + w * C) by nia.
  revert Hkw Hst1. generalize (k1 + w * C). intros k2 Hk2 Hst1.
  apply (for_range_invariant
           (fun c st => after_reads len (k2 + c) (fst st)) 0 C _ _ HC).
  { now rewrite Z.add_0_r. }
  intros c [f2 im2] Hc Hst2. simpl in Hst2.
  replace (k2 + (c + 1)) with (k2 + c + 1) by lia.
  pose proof (after_reads_step len (k2 + c) f2 ltac:(lia) Hst2) as Hnext.
  destruct (read_float f2) as [x f3]. exact Hnext.
Qed.

Lemma read_pfm_header_ok (file : istream) (hd : pfm_header) (rest : istream) :
  read_pfm_header file = Ok (hd, rest) ->
  good rest = true /\ (hC hd = 3 \/ hC hd = 1).
Proof.
  unfold read_pfm_header.
  destruct (extract_string file) as [id f1].
  destruct (if String.eqb id "PF" then Some 3
            else if String.eqb id "Pf" then Some 1 else None) as [C|] eqn:HC;
    [|discriminate].
  destruct (extract_int f1) as [W f2], (extract_int f2) as [H f3],
    (extract_float f3) as [sc f4].
  destruct (failbit (get f4)) eqn:Hfail; [discriminate|].
  intros Heq. injection Heq as <- <-. simpl. split.
  - unfold get in *. destruct (good f4); [|simpl in Hfail; discriminate].
    destruct (buf f4); [simpl in Hfail; discriminate|reflexivity].
  - destruct (String.eqb id "PF"); [left; congruence|].
    destruct (String.eqb id "Pf"); [right; congruence|discriminate].
Qed.


(** ** The PFM decoder: pixels *)

Lemma read_float_good (s : istream) :
  good s = true -> (4 <= length (buf s))%nat ->
  read_float s = (F32.of_bytes (take 4 (buf s)), {| buf := drop 4 (buf s); eofbit := false; failbit := false |}).
Proof.
  intros Hg Hlen. unfold read_float, read. rewrite Hg.
  apply Nat.leb_le in Hlen. rewrite Hlen. reflexivity.
Qed.

Lemma decoded_step (H W C : Z) (scale : float32) (body : list ascii)
    (h w c : Z) (file : istream) (image : Tensor) :
  0 <= h < H -> 0 <= w < W -> 0 <= c < C ->
  H * W * C <= Int.max_signed ->
  H * W * C * 4 <= Z.of_nat (length body) ->
  decoded H W C scale body (linear_index W C h w c) (file, image) ->
  decoded H W C scale body (linear_index W C h w c + 1)
    (let '(x, file) := read_float file in
     (file, tensor_set image (flipped_index H W C h w c) (F32.mul x scale))).
Proof.
  intros Hh Hw Hc Hmax Hlen (Hgood & Hbuf & Hdims & Hfmt & Hdata & Hcells).
  cbn [fst snd] in *.
  pose proof (linear_index_bounds H W C h w c Hh Hw Hc) as Hk.
  pose proof (linear_index_bounds H W C (H - 1 - h) w c
                ltac:(lia) Hw Hc) as Hk'.
  rewrite read_float_good; [|exact Hgood|rewrite Hbuf, length_drop; lia].
  rewrite flipped_index_exact by assumption.
  destruct (tensor_set_shape image (linear_index W C (H - 1 - h) w c)
              (F32.mul (F32.of_bytes (take 4 (buf file))) scale))
    as (Hd & Hf & Hl).
  unfold decoded. cbn [fst snd buf].
  split; [reflexivity|]. split.
  { rewrite Hbuf, drop_drop. f_equal. lia. }
  split; [congruence|]. split; [congruence|]. split; [lia|].
  intros h' w' c' Hh' Hw' Hc' Hlt.
  destruct (Z.eq_dec (linear_index W C h' w' c') (linear_index W C h w c)) as [Heq|Hne].
  - destruct (linear_index_inj _ _ _ _ _ _ _ _ Hw' Hc' Hw Hc Heq) as (-> & -> & ->).
    rewrite tensor_get_set_same by lia.
    unfold stored_sample. now rewrite Hbuf.
  - rewrite tensor_get_set_other.
    + apply Hcells; try assumption. lia.
    + pose proof (linear_index_bounds H W C (H - 1 - h') w' c'
                    ltac:(lia) Hw' Hc'). lia.
    + intros Heq. apply Hne.
      destruct (linear_index_inj _ _ _ _ _ _ _ _ Hw Hc Hw' Hc' Heq) as (Hhh & -> & ->).
      replace h' with h by lia. reflexivity.
Qed.

Lemma read_pixels_decoded (H W C : Z) (scale : float32) (body : list ascii)
    (st : istream * Tensor) :
  0 <= H -> 0 <= W -> 0 <= C ->
  H * W * C <= Int.max_signed ->
  H * W * C * 4 <= Z.of_nat (length body) ->
  decoded H W C scale body 0 st ->
  decoded H W C scale body (H * W * C) (read_pixels H W C scale st).
Proof.
  intros HH HW HC Hmax Hlen Hst. unfold read_pixels.
  replace (H * W * C) with (linear_index W C H 0 0)
    by (unfold linear_index; lia).
  apply (for_range_invariant
           (fun h st => decoded H W C scale body (linear_index W C h 0 0) st) 0 H _ _ HH).
  { exact Hst. }
  intros h st1 Hh Hst1.
  replace (linear_index W C (h + 1) 0 0) with (linear_index W C h W 0)
    by (unfold linear_index; lia).
  apply (for_range_invariant
           (fun w st => decoded H W C scale body (linear_index W C h w 0) st) 0 W _ _ HW).
  { exact Hst1. }
  intros w st2 Hw Hst2.
  replace (linear_index W C h (w + 1) 0) with (linear_index W C h w C)
    by (unfold linear_index; lia).
  apply (for_range_invariant
           (fun c st => decoded H W C scale body (linear_index W C h w c) st) 0 C _ _ HC).
  { exact Hst2. }
  intros c [file image] Hc Hst3.
  replace (linear_index W C h w (c + 1)) with (linear_index W C h w c + 1)
    by (unfold linear_index; lia).
  now apply decoded_step.
Qed.

(** What [loadImagePFM] returns for a complete file with a negative
    scale. *)
Lemma loadImagePFM_complete
    (filename : string) (d : disk) (bytes : list ascii)
    (hd : pfm_header) (rest : istream) :
  file_at d filename = Some bytes ->
  read_pfm_header (stream_of bytes) = Ok (hd, rest) ->
  F32.ltb (hscale hd) F32.pzero = true ->
  0 <= hW hd -> 0 <= hH hd ->
  hH hd * hW hd * hC hd <= Int.max_signed ->
  hH hd * hW hd * hC hd * 4 <= Z.of_nat (length (buf rest)) ->
  exists image,
    loadImagePFM filename d = Ok image
    /\ dims image = [hH hd; hW hd; hC hd]
    /\ format image = "hwc"%string
    /\ Z.of_nat (length (data image)) = hH hd * hW hd * hC hd
    /\ forall h w c, 0 <= h < hH hd -> 0 <= w < hW hd -> 0 <= c < hC hd ->
         tensor_get image (linear_index (hW hd) (hC hd) (hH hd - 1 - h) w c)
         = F32.mul (stored_sample (buf rest) (linear_index (hW hd) (hC hd) h w c))
                   (F32.abs (hscale hd)).
Proof.
  intros Hf Hhd Hneg HW HH Hmax Hlen.
  rewrite (loadImagePFM_open _ _ _ Hf), Hhd.
  rewrite (ltb_not_leb _ _ Hneg).
  destruct (read_pfm_header_ok _ _ _ Hhd) as [Hgood HC].
  pose proof (read_pixels_decoded (hH hd) (hW hd) (hC hd) (F32.abs (hscale hd))
                (buf rest) (rest, Tensor_new [hH hd; hW hd; hC hd] "hwc")
                HH HW ltac:(lia) Hmax Hlen) as Hdec.
  destruct (read_pixels _ _ _ _ _) as [file image].
  destruct Hdec as (Hg & Hbuf & Hdims & Hfmt & Hdata & Hcells).
  - unfold decoded. cbn [fst snd Tensor_new dims format data].
    split; [exact Hgood|]. split; [reflexivity|]. split; [reflexivity|].
    split; [reflexivity|]. split.
    + rewrite length_replicate. unfold num_elements. simpl. nia.
    + intros h w c Hh Hw Hc Hlt.
      pose proof (linear_index_bounds _ _ _ h w c Hh Hw Hc). lia.
  - cbn [fst snd] in *. exists image.
    unfold good in Hg. apply andb_true_iff in Hg. destruct Hg as [_ Hg].
    apply negb_true_iff in Hg. rewrite Hg.
    split; [reflexivity|]. split; [exact Hdims|]. split; [exact Hfmt|].
    split; [exact Hdata|].
    intros h w c Hh Hw Hc. apply Hcells; try assumption.
    apply (linear_index_bounds _ _ _ h w c Hh Hw Hc).
Qed.

(** No positivity check: a header with a zero width or height and a
    negative scale yields a tensor without elements. *)
Lemma loadImagePFM_zero_area
    (filename : string) (d : disk) (bytes : list ascii)
    (hd : pfm_header) (rest : istream) :
  file_at d filename = Some bytes ->
  read_pfm_header (stream_of bytes) = Ok (hd, rest) ->
  F32.ltb (hscale hd) F32.pzero = true ->
  0 <= hW hd -> 0 <= hH hd -> hH hd * hW hd = 0 ->
  exists image,
    loadImagePFM filename d = Ok image
    /\ dims image = [hH hd; hW hd; hC hd] /\ data image = [].
Proof.
  intros Hf Hhd Hneg HW HH Hzero.
  destruct (loadImagePFM_complete filename d bytes hd rest Hf Hhd Hneg HW HH)
    as (image & Hload & Hdims & _ & Hlen & _).
  - rewrite Hzero. unfold Int.max_signed. lia.
  - rewrite Hzero. lia.
  - exists image. split; [exact Hload|]. split; [exact Hdims|].
    apply length_zero_iff_nil. rewrite Hzero in Hlen. lia.
Qed.

(** C4. For a header that declares [W], [H], [C] and a negative scale
    [s], followed by a complete body, the decoder returns an [H,W,C]
    tensor in which the sample stored at disk row [h] (row 0 is the
    first row of the body), column [w], channel [c] sits in memory row
    [H-1-h], and holds the stored value times [|s|]. *)
Theorem loadImagePFM_flips_rows_and_scales
    (filename : string) (d : disk) (bytes : list ascii)
    (hd : pfm_header) (rest : istream) :
  file_at d filename = Some bytes ->
  read_pfm_header (stream_of bytes) = Ok (hd, rest) ->
  F32.ltb (hscale hd) F32.pzero = true ->
  0 <= hW hd -> 0 <= hH hd ->
  hH hd * hW hd * hC hd <= Int.max_signed ->
  hH hd * hW hd * hC hd * 4 <= Z.of_nat (length (buf rest)) ->
  exists image,
    loadImagePFM filename d = Ok image
    /\ dims image = [hH hd; hW hd; hC hd]
    /\ format image = "hwc"%string
    /\ Z.of_nat (length (data image)) = hH hd * hW hd * hC hd
    /\ forall h w c, 0 <= h < hH hd -> 0 <= w < hW hd -> 0 <= c < hC hd ->
         tensor_get image (linear_index (hW hd) (hC hd) (hH hd - 1 - h) w c)
         = F32.mul (stored_sample (buf rest) (linear_index (hW hd) (hC hd) h w c))
                   (F32.abs (hscale hd)).
Proof.
  intros Hf Hhd Hneg HW HH Hmax Hlen.
  destruct (loadImagePFM_complete filename d bytes hd rest Hf Hhd Hneg HW HH Hmax Hlen)
    as (image & Hload & Hshape).
  exists image. split; [exact Hload|exact Hshape].
Qed.

(** ** The PFM encoder *)

(** The header written by [saveImagePFM], read back by [loadImagePFM]. *)
Lemma read_pfm_header_saved (W H : Z) (body : list ascii) :
  0 <= W <= Int.max_signed -> 0 <= H <= Int.max_signed ->
  read_pfm_header
    (stream_of
       ((((text "PF" ++ [newline]) ++ print_int W ++ text " " ++ print_int H ++ [newline])
         ++ text "-1.0" ++ [newline]) ++ body))
  = Ok ({| hC := 3; hW := W; hH := H; hscale := SFopp f_one |}, stream_of body).
Proof.
  intros HW HH.
  repeat rewrite <- app_assoc.
  change (text "PF" ++ [newline] ++ ?l) with ("P"%char :: "F"%char :: newline :: l).
  unfold read_pfm_header.
  change (extract_string (stream_of ("P"%char :: "F"%char :: newline :: ?l)))
    with ("PF"%string, stream_of (newline :: l)).
  cbn [String.eqb Ascii.eqb Bool.eqb].
  change (text " " ++ ?l) with (" "%char :: l).
  rewrite (extract_int_print_int W newline " "%char) by (assumption || reflexivity).
  change ([newline] ++ ?l) with (newline :: l).
  rewrite (extract_int_print_int H " "%char newline) by (assumption || reflexivity).
  change (extract_float (stream_of (newline :: text "-1.0" ++ newline :: body)))
    with (SFopp f_one, stream_of (newline :: body)).
  reflexivity.
Qed.

Lemma encoded_step (image : Tensor) (H W : Z) (header : list ascii)
    (h w c : Z) (file : list ascii) :
  0 <= h < H -> 0 <= w < W -> 0 <= c < 3 ->
  H * W * 3 <= Int.max_signed ->
  encoded image H W header (linear_index W 3 h w c) file ->
  encoded image H W header (linear_index W 3 h w c + 1)
    (file ++ F32.to_bytes (tensor_get image (flipped_index H W 3 h w c))).
Proof.
  intros Hh Hw Hc Hmax (body & -> & Hlen & Hcells).
  pose proof (linear_index_bounds H W 3 h w c Hh Hw Hc) as Hk.
  rewrite flipped_index_exact by assumption.
  exists (body ++ F32.to_bytes (tensor_get image (linear_index W 3 (H - 1 - h) w c))).
  split; [now rewrite app_assoc|]. split.
  { rewrite length_app. unfold F32.to_bytes. simpl length. lia. }
  intros h' w' c' Hh' Hw' Hc' Hlt.
  pose proof (linear_index_bounds H W 3 h' w' c' Hh' Hw' Hc') as Hk'.
  destruct (Z.eq_dec (linear_index W 3 h' w' c') (linear_index W 3 h w c)) as [Heq|Hne].
  - destruct (linear_index_inj _ _ _ _ _ _ _ _ Hw' Hc' Hw Hc Heq) as (-> & -> & ->).
    rewrite drop_app_length' by lia. reflexivity.
  - rewrite drop_app_le by lia. rewrite take_app_le.
    + apply Hcells; try assumption. lia.
    + rewrite length_drop. lia.
Qed.

Lemma pfm_body_encoded (image : Tensor) (H W : Z) (header : list ascii) :
  0 <= H -> 0 <= W -> H * W * 3 <= Int.max_signed ->
  encoded image H W header (H * W * 3) (pfm_body image H W 3 header).
Proof.
  intros HH HW Hmax. unfold pfm_body.
  replace (H * W * 3) with (linear_index W 3 H 0 0) at 1
    by (unfold linear_index; lia).
  apply (for_range_invariant
           (fun h file => encoded image H W header (linear_index W 3 h 0 0) file) 0 H _ _ HH).
  { exists []. rewrite app_nil_r. split; [reflexivity|]. split; [reflexivity|].
    intros h w c Hh Hw Hc Hlt.
    pose proof (linear_index_bounds H W 3 h w c Hh Hw Hc).
    unfold linear_index in *. lia. }
  intros h f1 Hh Hf1.
  replace (linear_index W 3 (h + 1) 0 0) with (linear_index W 3 h W 0)
    by (unfold linear_index; lia).
  apply (for_range_invariant
           (fun w file => encoded image H W header (linear_index W 3 h w 0) file) 0 W _ _ HW).
  { exact Hf1. }
  intros w f2 Hw Hf2.
  replace (linear_index W 3 h (w + 1) 0) with (linear_index W 3 h w 3)
    by (unfold linear_index; lia).
  apply (for_range_invariant
           (fun c file => encoded image H W header (linear_index W 3 h w c) file)
           0 3 _ _ ltac:(lia)).
  { exact Hf2. }
  intros c f3 Hc Hf3.
  replace (linear_index W 3 h w (c + 1)) with (linear_index W 3 h w c + 1)
    by (unfold linear_index; lia).
  now apply encoded_step.
Qed.

(** Every cell of an [H x W x C] buffer is the mirror image of some
    position. *)
Lemma linear_index_onto (H W C i : Z) :
  0 <= i < H * W * C -> 0 < W -> 0 < C ->
  exists h w c, 0 <= h < H /\ 0 <= w < W /\ 0 <= c < C
    /\ linear_index W C (H - 1 - h) w c = i.
Proof.
  intros Hi HW HC.
  exists (H - 1 - i / C / W), ((i / C) mod W), (i mod C).
  pose proof (Z.mod_pos_bound i C HC) as Hc.
  pose proof (Z.mod_pos_bound (i / C) W HW) as Hw.
  pose proof (Z.div_mod i C ltac:(lia)) as Hi1.
  pose proof (Z.div_mod (i / C) W ltac:(lia)) as Hi2.
  assert (H0 : 0 <= i / C) by (apply Z.div_pos; lia).
  assert (H1 : 0 <= i / C / W) by (apply Z.div_pos; lia).
  assert (H2 : i / C < H * W) by (apply Z.div_lt_upper_bound; lia).
  assert (H3 : i / C / W < H) by (apply Z.div_lt_upper_bound; lia).
  repeat split; try lia.
  unfold linear_index. replace (H - 1 - (H - 1 - i / C / W)) with (i / C / W) by lia.
  lia.
Qed.

Lemma tensor_get_valid (image : Tensor) (i : Z) :
  Forall F32.valid (data image) -> F32.valid (tensor_get image i).
Proof.
  intros Hall. unfold tensor_get. destruct (0 <=? i); [|reflexivity].
  destruct (nth_in_or_default (Z.to_nat i) (data image) F32.pzero) as [Hin| ->];
    [|reflexivity].
  rewrite Forall_forall in Hall. apply Hall. now apply list_elem_of_In.
Qed.

Lemma tensor_get_lookup (t : Tensor) (i : nat) (x : float32) :
  data t !! i = Some x -> tensor_get t (Z.of_nat i) = x.
Proof.
  intros Hx. unfold tensor_get.
  replace (0 <=? Z.of_nat i) with true by (symmetry; apply Z.leb_le; lia).
  rewrite Nat2Z.id. now apply nth_lookup_Some.
Qed.

(** Two buffers of the same length that agree on every cell are equal. *)
Lemma tensor_data_ext (t1 t2 : Tensor) (n : Z) :
  Z.of_nat (length (data t1)) = n -> Z.of_nat (length (data t2)) = n ->
  (forall i, 0 <= i < n -> tensor_get t1 i = tensor_get t2 i) ->
  data t1 = data t2.
Proof.
  intros H1 H2 Hcells. apply list_eq. intros i.
  destruct (data t1 !! i) as [x|] eqn:Hx.
  - pose proof (lookup_lt_Some _ _ _ Hx) as Hlt.
    destruct (lookup_lt_is_Some_2 (data t2) i ltac:(lia)) as [y Hy].
    rewrite Hy. f_equal.
    rewrite <- (tensor_get_lookup t1 i x Hx), <- (tensor_get_lookup t2 i y Hy).
    apply Hcells. lia.
  - symmetry. apply lookup_ge_None. apply lookup_ge_None in Hx. lia.
Qed.

(** C3. Saving an [H,W,3] tensor (axis order "hwc", [H > 0], [W > 0])
    as PFM and loading the file again returns the same tensor: same
    shape, same axis order, same element values. The scale read back is
    [-1.0], so the multiplier applied by the decoder is exactly 1. *)
Theorem saveImagePFM_loadImagePFM_roundtrip
    (image : Tensor) (H W : Z) (filename : string) (d : disk) :
  dims image = [H; W; 3] -> format image = "hwc"%string ->
  0 < H -> 0 < W -> H * W * 3 <= Int.max_signed ->
  Z.of_nat (length (data image)) = H * W * 3 ->
  Forall F32.valid (data image) ->
  can_write d filename = true ->
  exists d' bytes hd rest,
    saveImagePFM image filename d = Ok d'
    /\ file_at d' filename = Some bytes
    /\ read_pfm_header (stream_of bytes) = Ok (hd, rest)
    /\ F32.abs (hscale hd) = f_one
    /\ loadImagePFM filename d' = Ok image.
Proof.
  intros Hdims Hfmt HH HW Hmax Hlen Hvalid Hcw.
  unfold saveImagePFM, not_hwc3, ndims, dim. rewrite Hdims, Hfmt, Hcw.
  cbn [length nth Z.of_nat Z.eqb Pos.eqb negb orb String.eqb Ascii.eqb Bool.eqb
       Pos.of_succ_nat Pos.succ].
  set (header := ((text "PF" ++ [newline])
                  ++ print_int W ++ text " " ++ print_int H ++ [newline])
                 ++ text "-1.0" ++ [newline]).
  destruct (pfm_body_encoded image H W header ltac:(lia) ltac:(lia) Hmax)
    as (body & Hfile & Hblen & Hbody).
  rewrite Hfile.
  assert (Hbounds : 0 <= W <= Int.max_signed /\ 0 <= H <= Int.max_signed).
  { unfold Int.max_signed in *. nia. }
  destruct Hbounds as [HWb HHb].
  pose proof (read_pfm_header_saved W H body HWb HHb) as Hhd.
  fold header in Hhd.
  set (d' := write_file d filename (header ++ body)).
  assert (Hat : file_at d' filename = Some (header ++ body)).
  { unfold d', write_file. cbn [file_at]. now rewrite String.eqb_refl. }
  destruct (loadImagePFM_complete filename d' (header ++ body) _ _ Hat Hhd
              eq_refl ltac:(cbn [hW]; lia) ltac:(cbn [hH]; lia)
              ltac:(cbn [hH hW hC]; lia)
              ltac:(cbn [hH hW hC stream_of buf]; lia))
    as (image' & Hload & Hd' & Hf' & Hl' & Hcells).
  cbn [hH hW hC hscale stream_of buf] in *.
  exists d', (header ++ body),
    {| hC := 3; hW := W; hH := H; hscale := SFopp f_one |}, (stream_of body).
  split; [reflexivity|]. split; [exact Hat|]. split; [exact Hhd|].
  split; [reflexivity|].
  rewrite Hload. f_equal.
  assert (Hdata : data image' = data image).
  { apply (tensor_data_ext image' image (H * W * 3) Hl' Hlen).
    intros i Hi.
    destruct (linear_index_onto H W 3 i Hi HW ltac:(lia))
      as (h & w & c & Hh & Hw & Hc & <-).
    rewrite Hcells by assumption.
    unfold stored_sample.
    rewrite Hbody by (try assumption;
                      apply (linear_index_bounds H W 3 h w c Hh Hw Hc)).
    rewrite of_bytes_to_bytes by now apply tensor_get_valid.
    apply mul_one_r. now apply tensor_get_valid. }
  destruct image as [ds fmt dt], image' as [ds' fmt' dt'].
  cbn [dims format data] in *. congruence.
Qed.

(** ** The PPM encoder *)

(** Where the conversion to [int] is defined, the byte written is the
    truncated value clamped to [0, 255]. *)
Lemma ppm_sample_clamped (x : float32) (n : Z) :
  F32.to_int (F32.mul (powf x (F32.div f_one f_2_2)) f_255) = Some n ->
  exists ch, ppm_sample x = Some ch
    /\ code ch = Z.min (Z.max n 0) 255 /\ 0 <= code ch <= 255.
Proof.
  intros Hn. unfold ppm_sample. rewrite Hn. eexists. split; [reflexivity|].
  rewrite code_char_of by lia. lia.
Qed.

(** The samples 0 and 1 give the bytes 0 and 255. *)
Lemma ppm_sample_zero_one :
  ppm_sample F32.pzero = Some (char_of 0) /\ ppm_sample f_one = Some (char_of 255).
Proof. split; vm_compute; reflexivity. Qed.

(** A negative sample never reaches the clamp: [pow] returns a NaN (or
    [+infinity] for [-infinity]), whose conversion to [int] is
    undefined. *)
Lemma ppm_sample_negative (x : float32) :
  F32.ltb x F32.pzero = true -> ppm_sample x = None.
Proof.
  destruct x as [s|s| |s m e]; try discriminate;
    destruct s; try discriminate; intros _; vm_compute; reflexivity.
Qed.

(** C5, at a sample the claim covers ([+infinity >= 1]): the gamma
    curve keeps [+infinity], the product with 255 is [+infinity], and
    its conversion to [int] is undefined, so no byte 255 is guaranteed;
    the encoder's result on an image holding that sample is undefined.
    The negative sample -1 meets the same conversion through a NaN. *)
Theorem saveImagePPM_converts_before_clamping :
  F32.leb f_one F32.pinf = true
  /\ F32.mul (powf F32.pinf (F32.div f_one f_2_2)) f_255 = F32.pinf
  /\ F32.to_int F32.pinf = None
  /\ ppm_sample F32.pinf = None
  /\ saveImagePPM overexposed_pixel "out.ppm" empty_disk = Undefined
  /\ F32.ltb (F32.of_Z (-1)) F32.pzero = true
  /\ F32.mul (powf (F32.of_Z (-1)) (F32.div f_one f_2_2)) f_255 = F32.nan
  /\ ppm_sample (F32.of_Z (-1)) = None.
Proof.
  repeat split; vm_compute; reflexivity.
Qed.

(** ** Auto-exposure *)

Lemma zrange_fold {St : Type} (lo hi : Z) (body : Z -> St -> St) (s : St) :
  for_range lo hi body s = fold_left (fun t i => body i t) (zrange lo hi) s.
Proof.
  unfold for_range, zrange. generalize (seq 0 (Z.to_nat (hi - lo))). intros l.
  revert s. induction l as [|i l IH]; intros s; simpl; [reflexivity|apply IH].
Qed.

Lemma zrange_split (lo mid hi : Z) :
  lo <= mid <= hi -> zrange lo hi = zrange lo mid ++ zrange mid hi.
Proof.
  intros Hm. unfold zrange.
  replace (Z.to_nat (hi - lo)) with (Z.to_nat (mid - lo) + Z.to_nat (hi - mid))%nat by lia.
  rewrite seq_app, map_app. f_equal.
  replace (0 + Z.to_nat (mid - lo))%nat with (Z.to_nat (mid - lo) + 0)%nat by lia.
  rewrite <- (fmap_add_seq (Z.to_nat (mid - lo)) 0).
  change (list_fmap nat nat) with (@map nat nat).
  rewrite map_map. apply map_ext. intros i. lia.
Qed.

Lemma in_zrange (lo hi i : Z) : lo <= i < hi -> In i (zrange lo hi).
Proof.
  intros Hi. unfold zrange. apply in_map_iff.
  exists (Z.to_nat (i - lo)). split; [lia|]. apply in_seq. lia.
Qed.

Lemma fold_left_flat_map {A B St : Type} (f : St -> B -> St) (g : A -> list B)
    (l : list A) (s : St) :
  fold_left f (flat_map g l) s = fold_left (fun t a => fold_left f (g a) t) l s.
Proof.
  revert s. induction l as [|a l IH]; intros s; simpl; [reflexivity|].
  now rewrite fold_left_app, IH.
Qed.

Lemma fold_left_over_map {A B St : Type} (f : St -> B -> St) (g : A -> B)
    (l : list A) (s : St) :
  fold_left f (map g l) s = fold_left (fun t a => f t (g a)) l s.
Proof.
  revert s. induction l as [|a l IH]; intros s; simpl; [reflexivity|apply IH].
Qed.

Lemma fold_left_pointwise {A St : Type} (f g : St -> A -> St) (l : list A) (s : St) :
  (forall t a, f t a = g t a) -> fold_left f l s = fold_left g l s.
Proof.
  intros Hfg. revert s. induction l as [|a l IH]; intros s; simpl; [reflexivity|].
  now rewrite Hfg, IH.
Qed.

Lemma fold_left_guarded {A St : Type} (test : A -> bool) (f : St -> A -> St)
    (l : list A) (s : St) :
  fold_left (fun t a => if test a then f t a else t) l s
  = fold_left f (List.filter test l) s.
Proof.
  revert s. induction l as [|a l IH]; intros s; simpl; [reflexivity|].
  destruct (test a); simpl; apply IH.
Qed.

(** The two components of the accumulator evolve independently. *)
Lemma accumulate_pair (l : list float32) (a : float32) (n : Z) :
  0 <= n -> n + Z.of_nat (length l) <= Int.max_signed ->
  fold_left (fun (t : Sum) L => (F32.add (fst t) (log2f L), Int.add (snd t) 1)) l (a, n)
  = (fold_left (fun acc L => F32.add acc (log2f L)) l a, n + Z.of_nat (length l)).
Proof.
  revert a n. induction l as [|L l IH]; intros a n Hn Hb; simpl.
  - now rewrite Z.add_0_r.
  - simpl length in Hb. unfold Int.add at 2.
    rewrite wrap_in_range by int_lia.
    rewrite IH by lia. f_equal. lia.
Qed.

(** The reduction body is a guarded fold over the luminances. *)
Lemma sum_rows_fold (input : Data2D.t) (rb re : Z) (sum : Sum) :
  sum_rows input rb re sum
  = fold_left (fun (t : Sum) L => (F32.add (fst t) (log2f L), Int.add (snd t) 1))
      (bright input rb re) sum.
Proof.
  unfold sum_rows, bright, luminances.
  rewrite <- fold_left_guarded, fold_left_flat_map, zrange_fold.
  apply fold_left_pointwise. intros t h.
  rewrite fold_left_over_map, zrange_fold.
  apply fold_left_pointwise. intros t' w.
  unfold pixel_luminance. destruct (Data2D.get input h w) as [[r g] b].
  reflexivity.
Qed.

Lemma bright_split (input : Data2D.t) (lo mid hi : Z) :
  lo <= mid <= hi ->
  bright input lo hi = bright input lo mid ++ bright input mid hi.
Proof.
  intros Hm. unfold bright, luminances.
  now rewrite (zrange_split lo mid hi Hm), flat_map_app, List.filter_app.
Qed.

(** The literals of the sources are the floats the program uses. *)
Lemma source_literals :
  lit 212671 (-6) = f_lum_r /\ lit 715160 (-6) = f_lum_g /\ lit 72169 (-6) = f_lum_b
  /\ lit 1 (-7) = f_eps /\ lit 18 (-2) = f_key.
Proof. repeat split; vm_compute; reflexivity. Qed.

(** The pixels the specification counts are the pixels the loop
    counts. *)
Lemma counted_luminances_bright (input : Data2D.t) (lo hi : Z) :
  counted_luminances input lo hi = bright input lo hi.
Proof.
  destruct source_literals as (Hr & Hg & Hb & He & _).
  unfold counted_luminances, bright, luminances, exceeds_epsilon. rewrite He.
  apply (f_equal (List.filter (fun L => F32.ltb f_eps L))).
  induction (zrange lo hi) as [|h hs IH]; [reflexivity|].
  cbn [flat_map]. rewrite map_app, IH, map_map.
  apply (f_equal (fun l => l ++ _)).
  apply map_ext. intros w. unfold pixel_luminance, weighted_luminance.
  destruct (Data2D.get input h w) as [[r g] b]. unfold luminance.
  now rewrite Hr, Hg, Hb.
Qed.

(** What a body that holds [(a, n)] reaches over the rows [lo, hi). *)
Lemma reduce_from_sum (s : schedule) (input : Data2D.t) (lo hi : Z)
    (a : float32) (n : Z) :
  schedule_fits s lo hi ->
  0 <= n -> n + Z.of_nat (length (bright input lo hi)) <= Int.max_signed ->
  reduce_from s lo hi (a, n) (F32.pzero, 0) (sum_rows input) sum_join
  = (executed_sum s input lo hi a, n + Z.of_nat (length (bright input lo hi))).
Proof.
  revert lo hi a n.
  induction s as [|mid l IHl r IHr|mid l IHl r IHr]; intros lo hi a n Hfit Hn Hb; simpl.
  - rewrite sum_rows_fold, accumulate_pair by lia.
    now rewrite counted_luminances_bright.
  - destruct Hfit as (Hmid & Hl & Hr).
    rewrite (bright_split input lo mid hi Hmid), length_app in *.
    rewrite (IHl lo mid a n), (IHr mid hi F32.pzero 0) by (assumption || lia).
    unfold sum_join. simpl. f_equal. unfold Int.add.
    rewrite wrap_in_range by int_lia.
    lia.
  - destruct Hfit as (Hmid & Hl & Hr).
    rewrite (bright_split input lo mid hi Hmid), length_app in *.
    rewrite (IHl lo mid a n) by (assumption || lia).
    rewrite IHr by (assumption || lia).
    f_equal. lia.
Qed.

Lemma parallel_reduce_sum (s : schedule) (input : Data2D.t) (lo hi : Z) :
  schedule_fits s lo hi ->
  Z.of_nat (length (bright input lo hi)) <= Int.max_signed ->
  parallel_reduce s lo hi (F32.pzero, 0) (sum_rows input) sum_join
  = (executed_sum s input lo hi F32.pzero, Z.of_nat (length (bright input lo hi))).
Proof.
  intros Hfit Hb. unfold parallel_reduce.
  now rewrite reduce_from_sum by (assumption || lia).
Qed.

(** C2. When some pixel has a luminance
    [L = 0.212671*R + 0.715160*G + 0.072169*B] above [1e-7], the
    estimate is [0.18 / 2^(sum/count)]: [count] is the number of pixels
    with [L > 1e-7], and [sum] adds [log2 L] over exactly those pixels,
    the additions being associated as the execution of the reduction
    associates them. Pixels at or below the epsilon enter neither. This
    holds for every execution: chunks started from [0.f] and joined,
    and bodies that go on after a join. *)
Theorem autoexposure_log_average (s : schedule) (input : Data2D.t) (h w : Z) :
  schedule_fits s 0 (Data2D.height input) ->
  counted input <= Int.max_signed ->
  0 <= h < Data2D.height input -> 0 <= w < Data2D.width input ->
  exceeds_epsilon (weighted_luminance (Data2D.get input h w)) = true ->
  autoexposure s input
  = F32.div (lit 18 (-2))
      (exp2f (F32.div (executed_sum s input 0 (Data2D.height input) F32.pzero)
                      (F32.of_Z (counted input)))).
Proof.
  intros Hfit Hb Hh Hw Hbright. unfold autoexposure, counted in *.
  destruct source_literals as (_ & _ & _ & _ & ->).
  rewrite counted_luminances_bright in *.
  rewrite parallel_reduce_sum by assumption. cbn [fst snd].
  assert (Hin : In (weighted_luminance (Data2D.get input h w))
                   (counted_luminances input 0 (Data2D.height input))).
  { unfold counted_luminances. apply List.filter_In. split; [|exact Hbright].
    apply in_map. apply in_flat_map. exists h. split; [now apply in_zrange|].
    apply in_map. now apply in_zrange. }
  rewrite counted_luminances_bright in Hin.
  destruct (bright input 0 (Data2D.height input)) as [|L ls]; [destruct Hin|].
  replace (0 <? Z.of_nat (length (L :: ls))) with true
    by (symmetry; apply Z.ltb_lt; simpl length; lia).
  reflexivity.
Qed.

(** C8. When no pixel is brighter than the epsilon (every luminance is
    at or below [1e-7], the all-zero image included), the estimate is
    exactly [1.f]. *)
Theorem autoexposure_dark_image (s : schedule) (input : Data2D.t) :
  schedule_fits s 0 (Data2D.height input) ->
  (forall h w, 0 <= h < Data2D.height input -> 0 <= w < Data2D.width input ->
     F32.leb (pixel_luminance input h w) f_eps = true) ->
  autoexposure s input = f_one.
Proof.
  intros Hfit Hdark. unfold autoexposure.
  assert (Hnil : bright input 0 (Data2D.height input) = []).
  { unfold bright, luminances.
    destruct (List.filter _ _) as [|L ls] eqn:Hf; [reflexivity|].
    assert (Hin : In L (L :: ls)) by (left; reflexivity).
    rewrite <- Hf in Hin. apply List.filter_In in Hin. destruct Hin as [Hin Ht].
    apply in_flat_map in Hin. destruct Hin as (h & Hh & Hin).
    apply in_map_iff in Hin. destruct Hin as (w & <- & Hw).
    unfold zrange in Hh, Hw. apply in_map_iff in Hh, Hw.
    destruct Hh as (i & <- & Hi), Hw as (j & <- & Hj).
    apply in_seq in Hi, Hj.
    rewrite (leb_not_ltb _ _ (Hdark (0 + Z.of_nat i) (0 + Z.of_nat j)
                                 ltac:(lia) ltac:(lia))) in Ht.
    discriminate Ht. }
  rewrite parallel_reduce_sum
    by (try assumption; rewrite Hnil; unfold Int.max_signed; simpl; lia).
  rewrite Hnil. reflexivity.
Qed.

(** * Further properties *)

(** ** Extension dispatch *)

Lemma rfind_none (c : ascii) (s : string) :
  rfind c s = None <-> contains c s = false.
Proof.
  induction s as [|a s IH]; simpl; [tauto|].
  destruct (rfind c s) as [i|].
  - split; [discriminate|]. intros Hc. apply orb_false_iff in Hc.
    destruct Hc as [_ Hc]. apply IH in Hc. discriminate Hc.
  - destruct IH as [IH _]. rewrite (IH eq_refl), orb_false_r.
    destruct (Ascii.eqb a c); split; congruence.
Qed.

Lemma rfind_last (c : ascii) (stem ext : string) :
  contains c ext = false ->
  rfind c (stem ++ String c ext) = Some (String.length stem).
Proof.
  intros Hext. apply rfind_none in Hext.
  induction stem as [|a stem IH]; simpl.
  - now rewrite Hext, Ascii.eqb_refl.
  - now rewrite IH.
Qed.

Lemma substr_after (stem ext : string) (c : ascii) :
  substr (stem ++ String c ext) (String.length stem + 1) = Ok ext.
Proof.
  induction stem as [|a stem IH]; simpl; [now destruct ext|exact IH].
Qed.

Lemma rfind_some (c : ascii) (s : string) (i : nat) :
  rfind c s = Some i ->
  exists stem ext, s = (stem ++ String c ext)%string
    /\ String.length stem = i /\ contains c ext = false.
Proof.
  revert i. induction s as [|a s IH]; intros i; simpl; [discriminate|].
  destruct (rfind c s) as [j|] eqn:Hr.
  - intros Hi. injection Hi as <-.
    destruct (IH j eq_refl) as (stem & ext & -> & Hlen & Hext).
    exists (String a stem), ext. simpl. now rewrite Hlen.
  - destruct (Ascii.eqb a c) eqn:Hac; [|discriminate].
    intros Hi. injection Hi as <-. apply Ascii.eqb_eq in Hac. subst a.
    exists EmptyString, s. simpl. split; [reflexivity|]. split; [reflexivity|].
    now apply rfind_none.
Qed.

Lemma fileExtensionOf_stem_ext (stem ext : string) :
  contains "." ext = false -> fileExtensionOf (stem ++ "." ++ ext) = Ok ext.
Proof.
  intros Hext. unfold fileExtensionOf. simpl.
  rewrite (rfind_last "." stem ext Hext). apply substr_after.
Qed.

(** X1. [fileExtensionOf] returns [ext] exactly for the names of the
    form [stem.ext] in which [ext] has no '.': the name is cut at its
    last '.', and [substr] never throws. *)
Theorem fileExtensionOf_cuts_at_last_dot (filename ext : string) :
  fileExtensionOf filename = Ok ext
  <-> exists stem, filename = (stem ++ "." ++ ext)%string /\ contains "." ext = false.
Proof.
  unfold fileExtensionOf. split.
  - destruct (rfind "." filename) as [i|] eqn:Hr; [|discriminate].
    destruct (rfind_some _ _ _ Hr) as (stem & ext' & -> & <- & Hext).
    rewrite substr_after. intros Heq. injection Heq as <-.
    exists stem. split; [reflexivity|exact Hext].
  - intros (stem & -> & Hext). fold (fileExtensionOf (stem ++ "." ++ ext)).
    now apply fileExtensionOf_stem_ext.
Qed.

(** X2. A name without any '.' has no extension: [fileExtensionOf],
    [loadImage] and [saveImage] all throw the invalid-argument error
    "filename has no extension", whatever the disk holds. *)
Theorem no_dot_no_extension (filename : string) (image : Tensor) (d : disk) :
  contains "." filename = false ->
  fileExtensionOf filename = Throw (invalid_argument "filename has no extension")
  /\ loadImage filename d = Throw (invalid_argument "filename has no extension")
  /\ saveImage image filename d = Throw (invalid_argument "filename has no extension").
Proof.
  intros Hc. apply rfind_none in Hc.
  unfold loadImage, saveImage, fileExtensionOf. rewrite Hc. auto.
Qed.

(** X3. An extension other than "pfm", and other than "exr" unless the
    EXR codec is compiled in, is rejected by [loadImage] and [saveImage]
    with "image format is not supported"; the comparison is exact, so
    "PFM" is rejected too. *)
Theorem unknown_extension_is_rejected
    (filename ext : string) (image : Tensor) (d : disk) :
  fileExtensionOf filename = Ok ext ->
  ext <> "pfm"%string ->
  HAS_OPEN_EXR = false \/ ext <> "exr"%string ->
  loadImage filename d = Throw (invalid_argument "image format is not supported")
  /\ saveImage image filename d = Throw (invalid_argument "image format is not supported").
Proof.
  intros Hext Hpfm Hexr. unfold loadImage, saveImage. rewrite Hext.
  apply String.eqb_neq in Hpfm. rewrite Hpfm.
  assert (Hno : HAS_OPEN_EXR && String.eqb ext "exr" = false).
  { destruct Hexr as [-> | Hne]; [reflexivity|].
    apply String.eqb_neq in Hne. rewrite Hne. apply andb_false_r. }
  rewrite Hno. auto.
Qed.

(** X4. Loading [stem.pfm] when no such file can be opened throws the
    runtime error "cannot open file '<name>'", the name being quoted in
    full. *)
Theorem loadImage_missing_pfm_file (stem : string) (d : disk) :
  file_at d (stem ++ ".pfm")%string = None ->
  loadImage (stem ++ ".pfm") d
  = Throw (runtime_error ("cannot open file '" ++ (stem ++ ".pfm") ++ "'")).
Proof.
  intros Hmiss. unfold loadImage.
  assert (Hext : fileExtensionOf (stem ++ ".pfm") = Ok "pfm"%string).
  { apply (fileExtensionOf_stem_ext stem "pfm"). reflexivity. }
  rewrite Hext. cbn [String.eqb Ascii.eqb Bool.eqb]. rewrite andb_false_r.
  unfold loadImagePFM, ifstream_open. now rewrite Hmiss.
Qed.

(** X5. What [saveImage] writes under the "pfm" extension, [loadImage]
    cannot read back: the file starts with the magic "P6", and the
    decoder throws "invalid PFM image". *)
Theorem saveImage_then_loadImage_fails
    (image : Tensor) (filename : string) (d d' : disk) :
  fileExtensionOf filename = Ok "pfm"%string ->
  saveImage image filename d = Ok d' ->
  loadImage filename d' = Throw (runtime_error "invalid PFM image").
Proof.
  intros Hext. rewrite saveImage_pfm by exact Hext.
  unfold loadImage. rewrite Hext. cbn [String.eqb Ascii.eqb Bool.eqb].
  rewrite andb_false_r.
  unfold saveImagePPM. destruct (not_hwc3 image); [discriminate|].
  destruct (negb (can_write d filename)); [discriminate|].
  destruct (ppm_body _ _ _ _ _) as [bytes|] eqn:Hppm; [|discriminate].
  intros Heq. injection Heq as <-.
  destruct (ppm_body_extends _ _ _ _ _ _ Hppm) as [rest ->].
  match goal with
  | |- loadImagePFM _ (write_file _ _ ?b) = _ =>
      rewrite (loadImagePFM_open filename _ b)
        by (unfold write_file; cbn [file_at]; now rewrite String.eqb_refl)
  end.
  repeat rewrite <- app_assoc.
  change (text "P6" ++ [newline] ++ ?l) with ("P"%char :: "6"%char :: newline :: l).
  unfold read_pfm_header.
  change (extract_string (stream_of ("P"%char :: "6"%char :: newline :: ?l)))
    with ("P6"%string, stream_of (newline :: l)).
  reflexivity.
Qed.

(** ** The PFM codec *)

(** X6. Layout of the file [saveImagePFM] writes for an [H,W,3] tensor:
    the header "PF", "W H", "-1.0", then exactly [12*H*W] bytes; the
    four bytes at position [(h, w, c)] are the little-endian encoding of
    the sample of memory row [H-1-h], so the last memory row comes
    first. *)
Theorem saveImagePFM_layout
    (image : Tensor) (H W : Z) (filename : string) (d : disk) :
  dims image = [H; W; 3] -> format image = "hwc"%string ->
  0 <= H -> 0 <= W -> H * W * 3 <= Int.max_signed ->
  can_write d filename = true ->
  exists body,
    saveImagePFM image filename d
    = Ok (write_file d filename (pfm_header_bytes W H ++ body))
    /\ Z.of_nat (length body) = 12 * H * W
    /\ forall h w c, 0 <= h < H -> 0 <= w < W -> 0 <= c < 3 ->
         take 4 (drop (Z.to_nat (4 * linear_index W 3 h w c)) body)
         = F32.to_bytes (tensor_get image (linear_index W 3 (H - 1 - h) w c)).
Proof.
  intros Hdims Hfmt HH HW Hmax Hcw.
  unfold saveImagePFM, not_hwc3, ndims, dim. rewrite Hdims, Hfmt, Hcw.
  cbn [length nth Z.of_nat Z.eqb Pos.eqb negb orb String.eqb Ascii.eqb Bool.eqb
       Pos.of_succ_nat Pos.succ].
  match goal with
  | |- context [pfm_body image H W 3 ?hdr] =>
      destruct (pfm_body_encoded image H W hdr HH HW Hmax)
        as (body & Hfile & Hlen & Hcells);
      rewrite Hfile; replace hdr with (pfm_header_bytes W H)
        by (unfold pfm_header_bytes; now repeat rewrite <- app_assoc)
  end.
  exists body. split; [reflexivity|]. split; [lia|].
  intros h w c Hh Hw Hc. apply Hcells; try assumption.
  apply (linear_index_bounds H W 3 h w c Hh Hw Hc).
Qed.

(** X7. A grey-scale PFM file (magic "Pf") loads as an [H,W,1] tensor,
    and neither encoder accepts that tensor: both throw the
    invalid-argument error "image must have 3 channels", before any
    file is opened. *)
Theorem grey_image_loads_but_cannot_be_saved
    (filename : string) (d : disk) (bytes : list ascii)
    (hd : pfm_header) (rest : istream) :
  file_at d filename = Some bytes ->
  read_pfm_header (stream_of bytes) = Ok (hd, rest) ->
  hC hd = 1 ->
  F32.ltb (hscale hd) F32.pzero = true ->
  0 <= hW hd -> 0 <= hH hd ->
  hH hd * hW hd <= Int.max_signed ->
  hH hd * hW hd * 4 <= Z.of_nat (length (buf rest)) ->
  exists image,
    loadImagePFM filename d = Ok image
    /\ dims image = [hH hd; hW hd; 1]
    /\ forall out d',
         saveImagePFM image out d' = Throw (invalid_argument "image must have 3 channels")
         /\ saveImagePPM image out d' = Throw (invalid_argument "image must have 3 channels").
Proof.
  intros Hf Hhd HC Hneg HW HH Hmax Hlen.
  destruct (loadImagePFM_complete filename d bytes hd rest Hf Hhd Hneg HW HH
              ltac:(rewrite HC; lia) ltac:(rewrite HC; lia))
    as (image & Hload & Hdims & _).
  rewrite HC in Hdims. exists image. split; [exact Hload|]. split; [exact Hdims|].
  intros out d'. unfold saveImagePFM, saveImagePPM, not_hwc3, ndims, dim.
  rewrite Hdims. split; reflexivity.
Qed.

Lemma span_all (p : ascii -> bool) (l : list ascii) :
  forallb p l = true -> span p l = (l, []).
Proof.
  induction l as [|a l IH]; simpl; [reflexivity|].
  intros Hl. apply andb_true_iff in Hl. destruct Hl as [Ha Hl].
  now rewrite Ha, (IH Hl).
Qed.

(** X8. A file that is empty or holds only white space is rejected by
    the decoder with "invalid PFM image". *)
Theorem loadImagePFM_blank_file (filename : string) (d : disk) (bytes : list ascii) :
  file_at d filename = Some bytes ->
  forallb isspace bytes = true ->
  loadImagePFM filename d = Throw (runtime_error "invalid PFM image").
Proof.
  intros Hf Hblank. rewrite (loadImagePFM_open _ _ _ Hf).
  unfold read_pfm_header, extract_string, sentry, stream_of, good.
  cbn [eofbit failbit buf negb andb]. rewrite (span_all _ _ Hblank).
  reflexivity.
Qed.

(** X9. The round trip also holds for a tensor without pixels
    ([H = 0] or [W = 0]): saving it writes the header alone, and
    loading that file returns the tensor. *)
Theorem saveImagePFM_loadImagePFM_empty
    (image : Tensor) (H W : Z) (filename : string) (d : disk) :
  dims image = [H; W; 3] -> format image = "hwc"%string -> data image = [] ->
  0 <= H <= Int.max_signed -> 0 <= W <= Int.max_signed -> H * W = 0 ->
  can_write d filename = true ->
  saveImagePFM image filename d
  = Ok (write_file d filename (pfm_header_bytes W H))
  /\ loadImagePFM filename (write_file d filename (pfm_header_bytes W H)) = Ok image.
Proof.
  intros Hdims Hfmt Hdata HH HW Hzero Hcw.
  assert (Hmax : H * W * 3 <= Int.max_signed) by (rewrite Hzero; int_lia).
  unfold saveImagePFM, not_hwc3, ndims, dim. rewrite Hdims, Hfmt, Hcw.
  cbn [length nth Z.of_nat Z.eqb Pos.eqb negb orb String.eqb Ascii.eqb Bool.eqb
       Pos.of_succ_nat Pos.succ].
  match goal with
  | |- context [pfm_body image H W 3 ?hdr] =>
      destruct (pfm_body_encoded image H W hdr ltac:(lia) ltac:(lia) Hmax)
        as (body & Hfile & Hlen & _);
      rewrite Hfile; pose proof (read_pfm_header_saved W H body HW HH) as Hhd;
      replace hdr with (pfm_header_bytes W H) in *
        by (unfold pfm_header_bytes; now repeat rewrite <- app_assoc)
  end.
  assert (Hbody : body = []).
  { apply length_zero_iff_nil. rewrite Hzero in Hlen. lia. }
  subst body. rewrite app_nil_r in *. split; [reflexivity|].
  set (d' := write_file d filename (pfm_header_bytes W H)).
  assert (Hat : file_at d' filename = Some (pfm_header_bytes W H)).
  { unfold d', write_file. cbn [file_at]. now rewrite String.eqb_refl. }
  destruct (loadImagePFM_complete filename d' _ _ _ Hat Hhd eq_refl
              ltac:(cbn [hW]; lia) ltac:(cbn [hH]; lia)
              ltac:(cbn [hH hW hC]; lia)
              ltac:(cbn [hH hW hC stream_of buf length]; lia))
    as (image' & Hload & Hd' & Hf' & Hl' & _).
  cbn [hH hW hC] in *. rewrite Hload. f_equal.
  assert (Hdata' : data image' = []).
  { apply length_zero_iff_nil. rewrite Hzero in Hl'. lia. }
  destruct image as [ds fmt dt], image' as [ds' fmt' dt'].
  cbn [dims format data] in *. congruence.
Qed.

(** ** The PPM encoder *)

Lemma mapM_snoc {A B : Type} (f : A -> option B) (l : list A) (x : A) :
  mapM f (l ++ [x])
  = match mapM f l with
    | Some k => match f x with Some y => Some (k ++ [y]) | None => None end
    | None => None
    end.
Proof.
  induction l as [|a l IH]; simpl.
  - destruct (f x); reflexivity.
  - destruct (f a) as [b|]; simpl; [|reflexivity].
    rewrite IH. destruct (mapM f l) as [k|]; simpl; [|reflexivity].
    destruct (f x); reflexivity.
Qed.

Lemma ppm_samples_succ (image : Tensor) (k : Z) :
  0 <= k ->
  ppm_samples image (Z.to_nat (k + 1))
  = match ppm_samples image (Z.to_nat k) with
    | Some bytes =>
        match ppm_sample (tensor_get image k) with
        | Some ch => Some (bytes ++ [ch])
        | None => None
        end
    | None => None
    end.
Proof.
  intros Hk. unfold ppm_samples.
  replace (Z.to_nat (k + 1)) with (S (Z.to_nat k)) by lia.
  rewrite seq_S, mapM_snoc. cbn [Nat.add]. now rewrite Z2Nat.id by lia.
Qed.

(** The pixel loops of [saveImagePPM] walk the buffer in memory
    order. *)
Lemma ppm_body_samples (image : Tensor) (H W : Z) (header : list ascii) :
  0 <= H -> 0 <= W -> H * W * 3 <= Int.max_signed ->
  ppm_body image H W 3 (Some header)
  = option_map (app header) (ppm_samples image (Z.to_nat (H * W * 3))).
Proof.
  intros HH HW Hmax. unfold ppm_body.
  assert (HWH : Int.mul W H = W * H).
  { unfold Int.mul. apply wrap_in_range. assert (0 <= W * H) by nia. int_lia. }
  rewrite HWH. replace (H * W * 3) with (W * H * 3) by lia.
  apply (for_range_invariant
           (fun i st => st = option_map (app header)
                               (ppm_samples image (Z.to_nat (i * 3))))
           0 (W * H) _ _ ltac:(nia)).
  { unfold ppm_samples. simpl. now rewrite app_nil_r. }
  intros i st Hi ->.
  replace ((i + 1) * 3) with (i * 3 + 3) by lia.
  apply (for_range_invariant
           (fun c st => st = option_map (app header)
                               (ppm_samples image (Z.to_nat (i * 3 + c))))
           0 3 _ _ ltac:(lia)).
  { now rewrite Z.add_0_r. }
  intros c st Hc ->.
  replace (i * 3 + (c + 1)) with (i * 3 + c + 1) by lia.
  rewrite ppm_samples_succ by lia.
  assert (Hidx : Int.add (Int.mul i 3) c = i * 3 + c).
  { unfold Int.add, Int.mul. repeat rewrite wrap_in_range; int_lia. }
  rewrite Hidx.
  destruct (ppm_samples image (Z.to_nat (i * 3 + c))) as [bytes|]; cbn [option_map];
    [|reflexivity].
  destruct (ppm_sample _) as [ch|]; cbn [option_map]; [|reflexivity].
  now rewrite app_assoc.
Qed.

Lemma saveImagePPM_samples
    (image : Tensor) (H W : Z) (filename : string) (d : disk) :
  dims image = [H; W; 3] -> format image = "hwc"%string ->
  0 <= H -> 0 <= W -> H * W * 3 <= Int.max_signed ->
  can_write d filename = true ->
  saveImagePPM image filename d
  = match ppm_samples image (Z.to_nat (H * W * 3)) with
    | Some body => Ok (write_file d filename (ppm_header_bytes W H ++ body))
    | None => Undefined
    end.
Proof.
  intros Hdims Hfmt HH HW Hmax Hcw.
  unfold saveImagePPM, not_hwc3, ndims, dim. rewrite Hdims, Hfmt, Hcw.
  cbn [length nth Z.of_nat Z.eqb Pos.eqb negb orb String.eqb Ascii.eqb Bool.eqb
       Pos.of_succ_nat Pos.succ].
  rewrite ppm_body_samples by assumption.
  replace ((text "P6" ++ [newline])
           ++ print_int W ++ text " " ++ print_int H ++ [newline])
    with (text "P6" ++ [newline] ++ print_int W ++ text " " ++ print_int H ++ [newline])
    by now rewrite <- app_assoc.
  match goal with
  | |- context [option_map (app ?hdr)] =>
      replace hdr with (ppm_header_bytes W H)
        by (unfold ppm_header_bytes; now repeat rewrite <- app_assoc)
  end.
  destruct (ppm_samples _ _); reflexivity.
Qed.

(** X10. Layout of the file [saveImagePPM] writes for an [H,W,3]
    tensor all of whose samples convert: the header "P6", "W H", "255",
    then exactly [3*H*W] bytes, byte [i] being the encoding of sample
    [i] of the buffer: rows are kept in memory order, none is
    mirrored. *)
Theorem saveImagePPM_layout
    (image : Tensor) (H W : Z) (filename : string) (d : disk) :
  dims image = [H; W; 3] -> format image = "hwc"%string ->
  0 <= H -> 0 <= W -> H * W * 3 <= Int.max_signed ->
  can_write d filename = true ->
  (forall i, 0 <= i < H * W * 3 -> ppm_sample (tensor_get image i) <> None) ->
  exists body,
    saveImagePPM image filename d
    = Ok (write_file d filename (ppm_header_bytes W H ++ body))
    /\ Z.of_nat (length body) = 3 * H * W
    /\ forall i, 0 <= i < H * W * 3 ->
         body !! Z.to_nat i = ppm_sample (tensor_get image i).
Proof.
  intros Hdims Hfmt HH HW Hmax Hcw Hdef.
  rewrite (saveImagePPM_samples image H W filename d) by assumption.
  destruct (ppm_samples image (Z.to_nat (H * W * 3))) as [body|] eqn:Hs.
  - exists body. unfold ppm_samples in Hs.
    pose proof (length_mapM _ _ _ Hs) as Hlen. rewrite length_seq in Hlen.
    apply mapM_Some_1 in Hs.
    split; [reflexivity|]. split; [nia|].
    intros i Hi.
    destruct (lookup_lt_is_Some_2 body (Z.to_nat i) ltac:(lia)) as [ch Hch].
    rewrite Hch. symmetry.
    destruct (Forall2_lookup_r _ _ _ _ _ Hs Hch) as (j & Hj & Hfj).
    apply lookup_seq in Hj. destruct Hj as [-> _].
    cbn [Nat.add] in Hfj. now rewrite Z2Nat.id in Hfj by lia.
  - exfalso. unfold ppm_samples in Hs. apply mapM_None_1 in Hs.
    apply Exists_exists in Hs. destruct Hs as (j & Hj & Hnone).
    apply elem_of_seq in Hj. apply (Hdef (Z.of_nat j)); [lia|exact Hnone].
Qed.

(** X11. One negative sample anywhere in the buffer makes the whole
    call undefined: its conversion to [int] goes through a NaN, and no
    file content is determined. *)
Theorem saveImagePPM_negative_sample
    (image : Tensor) (H W : Z) (filename : string) (d : disk) (i : Z) :
  dims image = [H; W; 3] -> format image = "hwc"%string ->
  0 <= H -> 0 <= W -> H * W * 3 <= Int.max_signed ->
  can_write d filename = true ->
  0 <= i < H * W * 3 ->
  F32.ltb (tensor_get image i) F32.pzero = true ->
  saveImagePPM image filename d = Undefined.
Proof.
  intros Hdims Hfmt HH HW Hmax Hcw Hi Hneg.
  rewrite (saveImagePPM_samples image H W filename d) by assumption.
  replace (ppm_samples image (Z.to_nat (H * W * 3))) with (@None (list ascii));
    [reflexivity|].
  symmetry. unfold ppm_samples. apply mapM_None_2. apply Exists_exists.
  exists (Z.to_nat i). split.
  - apply elem_of_seq. lia.
  - rewrite Z2Nat.id by lia. now apply ppm_sample_negative.
Qed.

(** ** Auto-exposure *)

Lemma autoexposure_without_bright (s : schedule) (input : Data2D.t) :
  schedule_fits s 0 (Data2D.height input) ->
  bright input 0 (Data2D.height input) = [] ->
  autoexposure s input = f_one.
Proof.
  intros Hfit Hnil. unfold autoexposure.
  rewrite parallel_reduce_sum
    by (try assumption; rewrite Hnil; unfold Int.max_signed; simpl; lia).
  now rewrite Hnil.
Qed.

Lemma bright_nil (input : Data2D.t) (lo hi : Z) :
  (forall h w, lo <= h < hi -> 0 <= w < Data2D.width input ->
     F32.ltb f_eps (pixel_luminance input h w) = false) ->
  bright input lo hi = [].
Proof.
  intros Hdark. unfold bright, luminances.
  destruct (List.filter _ _) as [|L ls] eqn:Hf; [reflexivity|].
  assert (Hin : In L (L :: ls)) by (left; reflexivity).
  rewrite <- Hf in Hin. apply List.filter_In in Hin. destruct Hin as [Hin Ht].
  apply in_flat_map in Hin. destruct Hin as (h & Hh & Hin).
  apply in_map_iff in Hin. destruct Hin as (w & <- & Hw).
  unfold zrange in Hh, Hw. apply in_map_iff in Hh, Hw.
  destruct Hh as (i & <- & Hi), Hw as (j & <- & Hj).
  apply in_seq in Hi, Hj.
  rewrite (Hdark (lo + Z.of_nat i) (0 + Z.of_nat j) ltac:(lia) ltac:(lia)) in Ht.
  discriminate Ht.
Qed.

(** X12. Pixels for which [L > 1e-7] is false are skipped, a NaN
    luminance included: when no pixel passes the test the estimate is
    [1.f]. *)
Theorem autoexposure_skips_nan_and_dark (s : schedule) (input : Data2D.t) :
  schedule_fits s 0 (Data2D.height input) ->
  (forall h w, 0 <= h < Data2D.height input -> 0 <= w < Data2D.width input ->
     F32.ltb f_eps (pixel_luminance input h w) = false) ->
  autoexposure s input = f_one.
Proof.
  intros Hfit Hdark. apply autoexposure_without_bright; [exact Hfit|].
  now apply bright_nil.
Qed.

(** X13. A view without pixels (no row, or no column) has the estimate
    [1.f]; no pixel is read. *)
Theorem autoexposure_empty_view (s : schedule) (input : Data2D.t) :
  schedule_fits s 0 (Data2D.height input) ->
  Data2D.height input <= 0 \/ Data2D.width input <= 0 ->
  autoexposure s input = f_one.
Proof.
  intros Hfit Hempty. apply autoexposure_without_bright; [exact Hfit|].
  apply bright_nil. intros h w Hh Hw. lia.
Qed.

(** X14. The reduction body composes over consecutive row ranges:
    running it on the rows [a, b) and then, from the accumulator
    reached, on the rows [b, c) is running it once on [a, c). *)
Theorem sum_rows_consecutive (input : Data2D.t) (a b c : Z) (sum : Sum) :
  a <= b <= c ->
  sum_rows input b c (sum_rows input a b sum) = sum_rows input a c sum.
Proof.
  intros Habc. rewrite !sum_rows_fold, (bright_split input a b c Habc).
  now rewrite fold_left_app.
Qed.

(** X15. The count the reduction returns does not depend on how the
    rows are partitioned: for every schedule it is the number of pixels
    with [L > 1e-7]. *)
Theorem parallel_reduce_count (s : schedule) (input : Data2D.t) :
  schedule_fits s 0 (Data2D.height input) ->
  bright_count input <= Int.max_signed ->
  snd (parallel_reduce s 0 (Data2D.height input) (F32.pzero, 0)
         (sum_rows input) sum_join)
  = bright_count input.
Proof.
  intros Hfit Hb. unfold bright_count in *.
  now rewrite parallel_reduce_sum by assumption.
Qed.

(** ** The PFM decoder: header failures *)

(** X16. Whenever one of the four header tokens cannot be extracted
    (unknown magic, missing or non-numeric width or height, width or
    height outside [int], malformed or overflowing scale), the decoder
    throws "invalid PFM image": a failed stream stays failed up to the
    test that follows the scale. *)
Theorem loadImagePFM_bad_header (filename : string) (d : disk) (bytes : list ascii) :
  file_at d filename = Some bytes ->
  pfm_tokens (stream_of bytes) = None ->
  loadImagePFM filename d = Throw (runtime_error "invalid PFM image").
Proof.
  intros Hf Htok. rewrite (loadImagePFM_open _ _ _ Hf).
  unfold pfm_tokens in Htok. unfold read_pfm_header.
  destruct (extract_string (stream_of bytes)) as [id f1].
  destruct (if String.eqb id "PF" then Some 3
            else if String.eqb id "Pf" then Some 1 else None) as [C|];
    [|reflexivity].
  destruct (extract_int f1) as [W f2], (extract_int f2) as [H f3],
    (extract_float f3) as [sc f4].
  destruct (failbit f4) eqn:Hfail; [|discriminate].
  unfold get, good. rewrite Hfail, andb_false_r. reflexivity.
Qed.

Lemma read_pixels_shape (H W C : Z) (scale : float32) (st : istream * Tensor) :
  dims (snd (read_pixels H W C scale st)) = dims (snd st)
  /\ format (snd (read_pixels H W C scale st)) = format (snd st)
  /\ length (data (snd (read_pixels H W C scale st))) = length (data (snd st)).
Proof.
  unfold read_pixels.
  set (P := fun t : istream * Tensor =>
              dims (snd t) = dims (snd st) /\ format (snd t) = format (snd st)
              /\ length (data (snd t)) = length (data (snd st))).
  change (P (for_range 0 H (fun h => for_range 0 W (fun w => for_range 0 C
            (fun c '(file, image) =>
               let '(x, file) := read_float file in
               (file, tensor_set image (flipped_index H W C h w c) (F32.mul x scale)))))
            st)).
  apply for_range_preserves; [unfold P; auto|].
  intros h t1 _ Ht1. apply for_range_preserves; [exact Ht1|].
  intros w t2 _ Ht2. apply for_range_preserves; [exact Ht2|].
  intros c [file image] _ (Hd & Hf & Hl). destruct (read_float file) as [x file'].
  destruct (tensor_set_shape image (flipped_index H W C h w c) (F32.mul x scale))
    as (Hd' & Hf' & Hl').
  unfold P. cbn [snd] in *. repeat split; congruence.
Qed.

(** X17. What a successful load tells: when [loadImagePFM] returns a
    tensor for a header with non-negative width and height and an
    element count within [int], the scale was not [>= 0], the body held
    at least [4*H*W*C] bytes, and the tensor has the shape [H,W,C] of
    the header with one or three channels, the "hwc" order and exactly
    [H*W*C] elements. *)
Theorem loadImagePFM_result_shape
    (filename : string) (d : disk) (bytes : list ascii)
    (hd : pfm_header) (rest : istream) (image : Tensor) :
  file_at d filename = Some bytes ->
  read_pfm_header (stream_of bytes) = Ok (hd, rest) ->
  0 <= hW hd -> 0 <= hH hd ->
  hH hd * hW hd * hC hd <= Int.max_signed ->
  loadImagePFM filename d = Ok image ->
  F32.leb F32.pzero (hscale hd) = false
  /\ hH hd * hW hd * hC hd * 4 <= Z.of_nat (length (buf rest))
  /\ dims image = [hH hd; hW hd; hC hd] /\ (hC hd = 3 \/ hC hd = 1)
  /\ format image = "hwc"%string
  /\ Z.of_nat (length (data image)) = hH hd * hW hd * hC hd.
Proof.
  intros Hf Hhd HW HH Hmax.
  rewrite (loadImagePFM_open _ _ _ Hf), Hhd.
  destruct (F32.leb F32.pzero (hscale hd)); [discriminate|].
  destruct (read_pfm_header_ok _ _ _ Hhd) as [Hgood HC].
  pose proof (read_pixels_shape (hH hd) (hW hd) (hC hd) (F32.abs (hscale hd))
                (rest, Tensor_new [hH hd; hW hd; hC hd] "hwc")) as (Hd & Hfm & Hl).
  pose proof (read_pixels_stream (hH hd) (hW hd) (hC hd) (F32.abs (hscale hd))
                (Z.of_nat (length (buf rest))) 0 rest
                (Tensor_new [hH hd; hW hd; hC hd] "hwc")
                ltac:(lia) HH HW ltac:(lia)
                ltac:(split; intros Hb; [split; [exact Hgood|lia]|lia]))
    as [_ Hout].
  destruct (read_pixels _ _ _ _ _) as [file' image'].
  destruct (failbit file') eqn:Hfail; [discriminate|].
  intros Heq. injection Heq as <-. cbn [fst snd Tensor_new dims format data] in *.
  split; [reflexivity|]. split.
  { destruct (Z_lt_le_dec (Z.of_nat (length (buf rest))) (hH hd * hW hd * hC hd * 4))
      as [Hshort|Hfull]; [|exact Hfull].
    rewrite Hout in Hfail by lia. discriminate Hfail. }
  split; [exact Hd|]. split; [exact HC|]. split; [exact Hfm|].
  rewrite Hl, length_replicate. unfold num_elements. simpl.
  assert (0 <= hH hd * hW hd * hC hd) by nia. lia.
Qed.

End Programs.

(** The amended C6 at a file with scale 1.0 followed by a newline. *)
Lemma loadImagePFM_rejects_nonnegative_scale_witness :
  loadImagePFM "a.pfm" (disk_with "a.pfm" (text ("PF" ++ lf ++ "1 1" ++ lf ++ "1.0" ++ lf)))
  = Throw (runtime_error "big-endian PFM images are not supported").
Proof.
  apply (loadImagePFM_rejects_nonnegative_scale "a.pfm" _
           (text ("PF" ++ lf ++ "1 1" ++ lf ++ "1.0" ++ lf))
           {| hC := 3; hW := 1; hH := 1; hscale := f_one |}
           {| buf := []; eofbit := false; failbit := false |});
    vm_compute; reflexivity.
Defined.


(** C4 at the two-row sample file: the body starts with the bottom row. *)
Lemma loadImagePFM_flips_rows_and_scales_witness :
  exists image,
    loadImagePFM "rows.pfm" (disk_with "rows.pfm" two_rows_file) = Ok image
    /\ dims image = [2; 1; 3]
    /\ format image = "hwc"%string
    /\ Z.of_nat (length (data image)) = 2 * 1 * 3
    /\ forall h w c, 0 <= h < 2 -> 0 <= w < 1 -> 0 <= c < 3 ->
         tensor_get image (linear_index 1 3 (2 - 1 - h) w c)
         = F32.mul (stored_sample two_rows_body (linear_index 1 3 h w c))
                   (F32.abs (F32.of_Z (-2))).
Proof.
  apply (loadImagePFM_flips_rows_and_scales "rows.pfm"
           (disk_with "rows.pfm" two_rows_file) two_rows_file
           two_rows_header (stream_of two_rows_body));
    vm_compute; try reflexivity; intros Hc; discriminate Hc.
Defined.

(** C3 at the two-row sample image. *)
Lemma saveImagePFM_loadImagePFM_roundtrip_witness :
  exists d' bytes hd rest,
    saveImagePFM two_rows "rows.pfm" empty_disk = Ok d'
    /\ file_at d' "rows.pfm"%string = Some bytes
    /\ read_pfm_header (stream_of bytes) = Ok (hd, rest)
    /\ F32.abs (hscale hd) = f_one
    /\ loadImagePFM "rows.pfm" d' = Ok two_rows.
Proof.
  apply (saveImagePFM_loadImagePFM_roundtrip two_rows 2 1 "rows.pfm"%string empty_disk);
    try reflexivity; try (vm_compute; reflexivity);
    try (vm_compute; intros Hc; discriminate Hc).
  repeat constructor.
Defined.

(** C2 at the graded view, reduced by two chunks that are joined and a
    body that goes on with the third row: four pixels are counted, the
    logarithms 1, 2, 3 and 4 of the stand-in add up to 10, the mean is
    2.5 and the estimate is [0.18 / 4 = 0.045]. *)
Lemma autoexposure_log_average_witness :
  autoexposure floor_log2f trunc_exp2f resumed_chunks graded_view
  = F32.div (lit 18 (-2))
      (trunc_exp2f (F32.div (executed_sum floor_log2f resumed_chunks graded_view 0 3 F32.pzero)
                            (F32.of_Z (counted graded_view))))
  /\ counted graded_view = 4
  /\ executed_sum floor_log2f resumed_chunks graded_view 0 3 F32.pzero = F32.of_Z 10
  /\ autoexposure floor_log2f trunc_exp2f resumed_chunks graded_view = lit 45 (-3).
Proof.
  split; [|repeat split; vm_compute; reflexivity].
  apply (autoexposure_log_average floor_log2f trunc_exp2f resumed_chunks graded_view 0 0).
  - split; [simpl; lia|]. split; [|exact I].
    split; [simpl; lia|split; exact I].
  - vm_compute. intros Hc. discriminate Hc.
  - simpl. lia.
  - simpl. lia.
  - vm_compute. reflexivity.
Defined.

(** C8 at the black view, reduced in two chunks. *)
Lemma autoexposure_dark_image_witness :
  autoexposure floor_log2f trunc_exp2f two_chunks dark_view = f_one.
Proof.
  apply (autoexposure_dark_image floor_log2f trunc_exp2f two_chunks dark_view).
  - split; [simpl; lia|split; exact I].
  - intros h w _ _. vm_compute. reflexivity.
Defined.

(** X2 at the name "noext". *)
Lemma no_dot_no_extension_witness :
  fileExtensionOf "noext" = Throw (invalid_argument "filename has no extension")
  /\ loadImage false failing_loadImageEXR "noext" empty_disk
     = Throw (invalid_argument "filename has no extension")
  /\ saveImage base_powf false failing_saveImageEXR black_pixel "noext" empty_disk
     = Throw (invalid_argument "filename has no extension").
Proof.
  apply (no_dot_no_extension base_powf false failing_loadImageEXR failing_saveImageEXR
           "noext"%string black_pixel empty_disk).
  reflexivity.
Defined.

(** X3 at the name "a.exr" when the EXR codec is not compiled in. *)
Lemma unknown_extension_is_rejected_witness :
  loadImage false failing_loadImageEXR "a.exr" empty_disk
  = Throw (invalid_argument "image format is not supported")
  /\ saveImage base_powf false failing_saveImageEXR black_pixel "a.exr" empty_disk
     = Throw (invalid_argument "image format is not supported").
Proof.
  apply (unknown_extension_is_rejected base_powf false failing_loadImageEXR
           failing_saveImageEXR "a.exr"%string "exr"%string black_pixel empty_disk).
  - reflexivity.
  - discriminate.
  - left. reflexivity.
Defined.

(** X4 at the name "missing.pfm" on the empty disk. *)
Lemma loadImage_missing_pfm_file_witness :
  loadImage false failing_loadImageEXR "missing.pfm" empty_disk
  = Throw (runtime_error "cannot open file 'missing.pfm'").
Proof.
  apply (loadImage_missing_pfm_file false failing_loadImageEXR "missing"%string empty_disk).
  reflexivity.
Defined.

(** X5 at the black pixel saved as "out.pfm". *)
Lemma saveImage_then_loadImage_fails_witness :
  loadImage false failing_loadImageEXR "out.pfm"
    (write_file empty_disk "out.pfm"
       (text ("P6" ++ lf ++ "1 1" ++ lf ++ "255" ++ lf) ++ replicate 3 (char_of 0)))
  = Throw (runtime_error "invalid PFM image").
Proof.
  apply (saveImage_then_loadImage_fails base_powf false failing_loadImageEXR
           failing_saveImageEXR black_pixel "out.pfm"%string empty_disk).
  - reflexivity.
  - vm_compute. reflexivity.
Defined.

(** X6 at the two-row sample image. *)
Lemma saveImagePFM_layout_witness :
  exists body,
    saveImagePFM two_rows "rows.pfm" empty_disk
    = Ok (write_file empty_disk "rows.pfm" (pfm_header_bytes 1 2 ++ body))
    /\ Z.of_nat (length body) = 12 * 2 * 1
    /\ forall h w c, 0 <= h < 2 -> 0 <= w < 1 -> 0 <= c < 3 ->
         take 4 (drop (Z.to_nat (4 * linear_index 1 3 h w c)) body)
         = F32.to_bytes (tensor_get two_rows (linear_index 1 3 (2 - 1 - h) w c)).
Proof.
  apply (saveImagePFM_layout two_rows 2 1 "rows.pfm"%string empty_disk);
    try reflexivity; try lia.
  vm_compute. intros Hc. discriminate Hc.
Defined.

(** X7 at the one-pixel grey-scale file. *)
Lemma grey_image_loads_but_cannot_be_saved_witness :
  exists image,
    loadImagePFM "grey.pfm" (disk_with "grey.pfm" grey_file) = Ok image
    /\ dims image = [1; 1; 1]
    /\ forall out d',
         saveImagePFM image out d' = Throw (invalid_argument "image must have 3 channels")
         /\ saveImagePPM base_powf image out d'
            = Throw (invalid_argument "image must have 3 channels").
Proof.
  apply (grey_image_loads_but_cannot_be_saved base_powf "grey.pfm"%string
           (disk_with "grey.pfm" grey_file) grey_file grey_header
           (stream_of (text "abcd")));
    vm_compute; try reflexivity; intros Hc; discriminate Hc.
Defined.

(** X8 at a file of two blanks and a newline. *)
Lemma loadImagePFM_blank_file_witness :
  loadImagePFM "blank.pfm" (disk_with "blank.pfm" (text ("  " ++ lf)))
  = Throw (runtime_error "invalid PFM image").
Proof.
  apply (loadImagePFM_blank_file "blank.pfm"%string _ (text ("  " ++ lf)));
    reflexivity.
Defined.

(** X9 at the image of shape [0,4,3]. *)
Lemma saveImagePFM_loadImagePFM_empty_witness :
  saveImagePFM no_rows "none.pfm" empty_disk
  = Ok (write_file empty_disk "none.pfm" (pfm_header_bytes 4 0))
  /\ loadImagePFM "none.pfm" (write_file empty_disk "none.pfm" (pfm_header_bytes 4 0))
     = Ok no_rows.
Proof.
  apply (saveImagePFM_loadImagePFM_empty no_rows 0 4 "none.pfm"%string empty_disk);
    try reflexivity; unfold Int.max_signed; lia.
Defined.

(** X10 at the black pixel. *)
Lemma saveImagePPM_layout_witness :
  exists body,
    saveImagePPM base_powf black_pixel "out.ppm" empty_disk
    = Ok (write_file empty_disk "out.ppm" (ppm_header_bytes 1 1 ++ body))
    /\ Z.of_nat (length body) = 3 * 1 * 1
    /\ forall i, 0 <= i < 1 * 1 * 3 ->
         body !! Z.to_nat i = ppm_sample base_powf (tensor_get black_pixel i).
Proof.
  apply (saveImagePPM_layout base_powf black_pixel 1 1 "out.ppm"%string empty_disk);
    try reflexivity; try lia.
  - vm_compute. intros Hc. discriminate Hc.
  - intros i Hi.
    assert (Hcases : i = 0 \/ i = 1 \/ i = 2) by lia.
    destruct Hcases as [-> | [-> | ->]]; vm_compute; discriminate.
Defined.

(** X11 at the pixel with a negative blue sample. *)
Lemma saveImagePPM_negative_sample_witness :
  saveImagePPM base_powf negative_pixel "out.ppm" empty_disk = Undefined.
Proof.
  apply (saveImagePPM_negative_sample base_powf negative_pixel 1 1 "out.ppm"%string
           empty_disk 2);
    try reflexivity; try lia.
  vm_compute. intros Hc. discriminate Hc.
Defined.

(** X12 at the view whose luminances are NaN. *)
Lemma autoexposure_skips_nan_and_dark_witness :
  autoexposure floor_log2f trunc_exp2f Run nan_view = f_one.
Proof.
  apply (autoexposure_skips_nan_and_dark floor_log2f trunc_exp2f Run nan_view).
  - exact I.
  - intros h w _ _. vm_compute. reflexivity.
Defined.

(** X13 at the view without rows. *)
Lemma autoexposure_empty_view_witness :
  autoexposure floor_log2f trunc_exp2f Run empty_view = f_one.
Proof.
  apply (autoexposure_empty_view floor_log2f trunc_exp2f Run empty_view).
  - exact I.
  - left. simpl. lia.
Defined.

(** X14 at the two rows of the view with one white pixel. *)
Lemma sum_rows_consecutive_witness :
  sum_rows floor_log2f lit_view 1 2 (sum_rows floor_log2f lit_view 0 1 (F32.pzero, 0))
  = sum_rows floor_log2f lit_view 0 2 (F32.pzero, 0).
Proof.
  apply (sum_rows_consecutive floor_log2f lit_view 0 1 2 (F32.pzero, 0)). lia.
Defined.

(** X15 at the view with one white pixel, reduced in two chunks. *)
Lemma parallel_reduce_count_witness :
  snd (parallel_reduce two_chunks 0 (Data2D.height lit_view) (F32.pzero, 0)
         (sum_rows floor_log2f lit_view) sum_join)
  = bright_count lit_view.
Proof.
  apply (parallel_reduce_count floor_log2f two_chunks lit_view).
  - split; [simpl; lia|split; exact I].
  - vm_compute. intros Hc. discriminate Hc.
Defined.

(** X16 at a file whose height token is "x". *)
Lemma loadImagePFM_bad_header_witness :
  loadImagePFM "bad.pfm" (disk_with "bad.pfm" bad_height_file)
  = Throw (runtime_error "invalid PFM image").
Proof.
  apply (loadImagePFM_bad_header "bad.pfm"%string _ bad_height_file);
    vm_compute; reflexivity.
Defined.

(** X17 at the one-pixel grey-scale file. *)
Lemma loadImagePFM_result_shape_witness :
  F32.leb F32.pzero (hscale grey_header) = false
  /\ hH grey_header * hW grey_header * hC grey_header * 4
     <= Z.of_nat (length (buf (stream_of (text "abcd"))))
  /\ dims {| dims := [1; 1; 1]; format := "hwc";
             data := [stored_sample (text "abcd") 0] |}
     = [hH grey_header; hW grey_header; hC grey_header]
  /\ (hC grey_header = 3 \/ hC grey_header = 1)
  /\ format {| dims := [1; 1; 1]; format := "hwc";
               data := [stored_sample (text "abcd") 0] |} = "hwc"%string
  /\ Z.of_nat (length (data {| dims := [1; 1; 1]; format := "hwc";
                               data := [stored_sample (text "abcd") 0] |}))
     = hH grey_header * hW grey_header * hC grey_header.
Proof.
  apply (loadImagePFM_result_shape "grey.pfm"%string (disk_with "grey.pfm" grey_file)
           grey_file grey_header (stream_of (text "abcd")));
    vm_compute; try reflexivity; intros Hc; discriminate Hc.
Defined.
